(** * depeche (dede): the node-to-node protocol engine

    A shallow embedding of the segment codec, the wire messages, the
    announcement listeners, the exchange loop, the two port searches, the
    sqlite store of messages, contacts, addresses and keys and the saving
    of a rendezvous, followed by the properties the specification states
    about them and by further properties of the code. *)

From Stdlib Require Import String Ascii ZArith Bool Lia List.
From Stdlib Require Import Strings.Byte.
Import ListNotations.
Open Scope Z_scope.

(** ** Python results *)

(** The exception classes the modelled code can raise. *)
Inductive exn : Type :=
| RuntimeError (msg : string)
| ValueError (msg : string)
| UnicodeDecodeError
| JSONDecodeError
| KeyError (key : string)
| TypeError
| UnboundLocalError (name : string)
| AttributeError
| socket_timeout
| ConnectionRefusedError
| IntegrityError.

(** [UnicodeDecodeError] and [json.JSONDecodeError] are subclasses of
    [ValueError]: an [except ValueError] clause catches all three. *)
Definition is_ValueError (e : exn) : bool :=
  match e with
  | ValueError _ | UnicodeDecodeError | JSONDecodeError => true
  | _ => false
  end.

Inductive result (A : Type) : Type :=
| Ok (a : A)
| Raise (e : exn).
Arguments Ok {A} a.
Arguments Raise {A} e.

Definition bind {A B} (r : result A) (k : A -> result B) : result B :=
  match r with
  | Ok a => k a
  | Raise e => Raise e
  end.

Notation "x <- r ;; k" := (bind r (fun x => k))
  (at level 61, r at next level, right associativity).

(** ** bytebundle.py: the framed segment codec *)

Module bytebundle.

Definition bytes := list byte.

Definition Z_of_byte (b : byte) : Z := Z.of_N (Byte.to_N b).

Definition byte_of_Z (z : Z) : byte :=
  match Byte.of_N (Z.to_N (z mod 256)) with
  | Some b => b
  | None => x00
  end.

Fixpoint bytes_eqb (a b : bytes) : bool :=
  match a, b with
  | [], [] => true
  | x :: a', y :: b' => Byte.eqb x y && bytes_eqb a' b'
  | _, _ => false
  end.

(** [int.from_bytes(bs, byteorder='big', signed=False)] *)
Definition int_from_bytes (bs : bytes) : Z :=
  fold_left (fun acc b => acc * 256 + Z_of_byte b) bs 0.

(** Big-endian ctypes fields; a value out of range is truncated. *)
Definition c_uint32 (z : Z) : bytes :=
  [byte_of_Z (z / 2 ^ 24); byte_of_Z (z / 2 ^ 16); byte_of_Z (z / 2 ^ 8);
   byte_of_Z z].

Definition c_uint8 (z : Z) : bytes := [byte_of_Z z].

(** [class _MessageHeader(BigEndianStructure)], [_pack_ = 1]: ten bytes. *)
Record _MessageHeader : Type := {
  proto_identifier : Z;
  version_number : Z;
  message_size : Z;
  last_segment : Z
}.

Definition header_bytes (h : _MessageHeader) : bytes :=
  c_uint32 (proto_identifier h) ++ c_uint8 (version_number h)
  ++ c_uint32 (message_size h) ++ c_uint8 (last_segment h).

(** [b'\xde\x0e\xc0\xe1'] *)
Definition magic : bytes := [xde; x0e; xc0; xe1].

(** One direction of a reliable in-memory byte pipe: the bytes written and
    not yet read.  [sendall] appends; [recv n] hands over at most [n] of
    the queued bytes, and [b''] once the queue is drained and the writer
    is gone. *)
Definition sock := bytes.

Definition recv (n : Z) (s : sock) : bytes * sock :=
  (firstn (Z.to_nat n) s, skipn (Z.to_nat n) s).

Definition sendall (data : bytes) (s : sock) : sock := s ++ data.

(** Python's [data[i:j]] for [0 <= i <= j]. *)
Definition slice (i j : nat) (data : bytes) : bytes :=
  firstn (j - i) (skipn i data).

Definition is_empty (b : bytes) : bool :=
  match b with [] => true | _ => false end.

(** The [while remaining_bytes > 0] loop of [read].  Every iteration that
    does not raise takes at least one byte, so [remaining_bytes] itself
    bounds the number of iterations; [None] is "out of fuel". *)
Fixpoint recv_loop (fuel : nat) (remaining_bytes : Z) (s : sock)
    (parts : list bytes) : option (result (list bytes) * sock) :=
  if remaining_bytes >? 0 then
    match fuel with
    | O => None
    | S fuel' =>
        let (part, s1) := recv (Z.min remaining_bytes 2048) s in
        let remaining_bytes := remaining_bytes - Z.of_nat (List.length part) in
        if is_empty part && (remaining_bytes >? 0) then
          Some (Raise (RuntimeError "socket connection broken"), s1)
        else recv_loop fuel' remaining_bytes s1 (parts ++ [part])
    end
  else Some (Ok parts, s).

(** [read(sock, previous_data)].  The recursive call on a segment that is
    not the last one is taken with one unit of fuel less. *)
Fixpoint read_from (fuel : nat) (s : sock) (previous_data : bytes)
    : option (result bytes * sock) :=
  let (data, s) := recv 10 s in
  let proto := firstn 4 data in
  if negb (bytes_eqb proto magic) then
    Some (Raise (RuntimeError "Protocol does not match data received"), s)
  else
    let version := int_from_bytes (slice 4 5 data) in
    if negb (version =? 0) then
      Some (Raise (RuntimeError "Protocol version not supported"), s)
    else
      let length := int_from_bytes (slice 5 9 data) in
      let is_last := negb (is_empty (skipn 9 data)) in
      if length >? 0 then
        match recv_loop (Z.to_nat length) length s [] with
        | None => None
        | Some (Raise e, s) => Some (Raise e, s)
        | Some (Ok parts, s) =>
            let segment_data := concat parts in
            let received_data := previous_data ++ segment_data in
            if is_last then Some (Ok received_data, s)
            else
              match fuel with
              | O => None
              | S fuel' => read_from fuel' s received_data
              end
        end
      else Some (Ok [], s).

Definition read (s : sock) : option (result bytes * sock) :=
  read_from (S (List.length s)) s [].

(** [send(bytes_to_send, sock)] *)
Definition send (bytes_to_send : bytes) (s : sock) : sock :=
  let header :=
    {| proto_identifier := 0xde0ec0e1;
       version_number := 0;
       message_size := Z.of_nat (List.length bytes_to_send);
       last_segment := 1 |} in
  sendall (header_bytes header ++ bytes_to_send) s.

(** A wire segment as the module's docstring lays it out, with an explicit
    last-segment flag byte. *)
Definition segment (last : bool) (payload : bytes) : bytes :=
  header_bytes
    {| proto_identifier := 0xde0ec0e1;
       version_number := 0;
       message_size := Z.of_nat (List.length payload);
       last_segment := if last then 1 else 0 |}
  ++ payload.

(** A run of segments of which only the final one carries the flag. *)
Fixpoint segment_run (payloads : list bytes) : bytes :=
  match payloads with
  | [] => []
  | [p] => segment true p
  | p :: rest => segment false p ++ segment_run rest
  end.

(** The use the exchange loop makes of a connection: one endpoint calls
    [send] once per container, its peer calls [read] once per container. *)
Definition send_each (messages : list bytes) (s : sock) : sock :=
  fold_left (fun s b => send b s) messages s.

(** [n] calls of [read] on the same connection, up to the first one that
    raises. *)
Fixpoint read_each (n : nat) (s : sock) : option (result (list bytes) * sock) :=
  match n with
  | O => Some (Ok [], s)
  | S n' =>
      match read s with
      | None => None
      | Some (Raise e, s) => Some (Raise e, s)
      | Some (Ok b, s) =>
          match read_each n' s with
          | None => None
          | Some (Raise e, s) => Some (Raise e, s)
          | Some (Ok bs, s) => Some (Ok (b :: bs), s)
          end
      end
  end.

End bytebundle.

(** ** JSON values as Python sees them after [json.loads]

    Numbers are the integers; the documents the node writes hold no
    others. *)

#[local] Set Warnings "-register-all".

Inductive json : Type :=
| JNull
| JBool (b : bool)
| JInt (z : Z)
| JStr (s : string)
| JArr (items : list json)
| JObj (fields : list (string * json)).

Module py.

Fixpoint dict_get (k : string) (d : list (string * json)) : option json :=
  match d with
  | [] => None
  | (k', v) :: d' => if String.eqb k k' then Some v else dict_get k d'
  end.

(** [v[k]] with a [str] key: only a dict can be indexed that way. *)
Definition subscript (v : json) (k : string) : result json :=
  match v with
  | JObj d =>
      match dict_get k d with
      | Some x => Ok x
      | None => Raise (KeyError k)
      end
  | _ => Raise TypeError
  end.

(** [v == s] for a [str] constant [s]. *)
Definition eq_str (v : json) (s : string) : bool :=
  match v with
  | JStr t => String.eqb t s
  | _ => false
  end.

(** [v == n] for an [int] constant [n]; [bool] is a subclass of [int]. *)
Definition eq_int (v : json) (n : Z) : bool :=
  match v with
  | JInt z => z =? n
  | JBool b => (if b then 1 else 0) =? n
  | _ => false
  end.

(** [v == o] where [o] is a [str] or [None]. *)
Definition eq_opt_str (v : json) (o : option string) : bool :=
  match v, o with
  | JNull, None => true
  | JStr t, Some s => String.eqb t s
  | _, _ => false
  end.

(** [v > 0]: defined on numbers only. *)
Definition gt_0 (v : json) : result bool :=
  match v with
  | JInt z => Ok (z >? 0)
  | JBool b => Ok b
  | _ => Raise TypeError
  end.

(** [for x in v]: a list yields its items, a dict its keys, a string its
    characters; the other values are not iterable. *)
Definition iter (v : json) : result (list json) :=
  match v with
  | JArr items => Ok items
  | JObj d => Ok (map (fun kv => JStr (fst kv)) d)
  | JStr s => Ok (map (fun c => JStr (String c EmptyString)) (list_ascii_of_string s))
  | _ => Raise TypeError
  end.

(** [d[k] = v]: the value of a key the dict holds is replaced where it
    stands, a new key goes to the end. *)
Fixpoint dict_set (k : string) (v : json) (d : list (string * json))
    : list (string * json) :=
  match d with
  | [] => [(k, v)]
  | (k', v') :: d' =>
      if String.eqb k k' then (k, v) :: d' else (k', v') :: dict_set k v d'
  end.

(** [v is None] *)
Definition is_None (v : json) : bool :=
  match v with JNull => true | _ => false end.

End py.

(** ** datetime: naive timestamps, [isoformat] and [strptime] *)

Module datetime.

Record datetime : Type := {
  year : Z;
  month : Z;
  day : Z;
  hour : Z;
  minute : Z;
  second : Z;
  microsecond : Z
}.

Definition is_leap (y : Z) : bool :=
  ((y mod 4 =? 0) && negb (y mod 100 =? 0)) || (y mod 400 =? 0).

Definition days_in_month (y m : Z) : Z :=
  if m =? 2 then (if is_leap y then 29 else 28)
  else if (m =? 4) || (m =? 6) || (m =? 9) || (m =? 11) then 30
  else 31.

(** The ranges the [datetime] constructor enforces. *)
Definition valid (d : datetime) : bool :=
  (1 <=? year d) && (year d <=? 9999)
  && (1 <=? month d) && (month d <=? 12)
  && (1 <=? day d) && (day d <=? days_in_month (year d) (month d))
  && (0 <=? hour d) && (hour d <=? 23)
  && (0 <=? minute d) && (minute d <=? 59)
  && (0 <=? second d) && (second d <=? 59)
  && (0 <=? microsecond d) && (microsecond d <=? 999999).

Definition digit (d : Z) : ascii := ascii_of_nat (48 + Z.to_nat d).

(** ["%0<width>d" % n] for [0 <= n < 10 ^ width]. *)
Fixpoint zpad (width : nat) (n : Z) : string :=
  match width with
  | O => EmptyString
  | S w => (zpad w (n / 10) ++ String (digit (n mod 10)) EmptyString)%string
  end.

(** [datetime.isoformat()] of a naive timestamp: the fraction is written
    only when [microsecond] is not zero. *)
Definition isoformat (d : datetime) : string :=
  (zpad 4 (year d) ++ "-" ++ zpad 2 (month d) ++ "-" ++ zpad 2 (day d)
   ++ "T" ++ zpad 2 (hour d) ++ ":" ++ zpad 2 (minute d) ++ ":"
   ++ zpad 2 (second d)
   ++ (if (microsecond d =? 0)%Z then "" else "." ++ zpad 6 (microsecond d)))%string.

Definition digit_value (c : ascii) : option Z :=
  let n := Z.of_nat (nat_of_ascii c) in
  if (48 <=? n) && (n <=? 57) then Some (n - 48) else None.

(** The value of a string of decimal digits; [None] if some character is
    not a digit. *)
Fixpoint digits_from (acc : Z) (s : string) : option Z :=
  match s with
  | EmptyString => Some acc
  | String c s' =>
      match digit_value c with
      | Some v => digits_from (acc * 10 + v) s'
      | None => None
      end
  end.

Definition digits (s : string) : option Z := digits_from 0 s.

(** The text before the first occurrence of [sep], and the text after it. *)
Fixpoint split_at (sep : ascii) (s : string) : option (string * string) :=
  match s with
  | EmptyString => None
  | String c s' =>
      if Ascii.eqb c sep then Some (EmptyString, s')
      else
        match split_at sep s' with
        | Some (a, b) => Some (String c a, b)
        | None => None
        end
  end.

(** A numeric field of [strptime]: between [lo_len] and [hi_len] decimal
    digits whose value lies in [lo .. hi]. *)
Definition field (lo_len hi_len : nat) (lo hi : Z) (s : string) : option Z :=
  if (lo_len <=? String.length s)%nat && (String.length s <=? hi_len)%nat then
    match digits s with
    | Some v => if (lo <=? v) && (v <=? hi) then Some v else None
    | None => None
    end
  else None.

(** [%d] also accepts a space in front of a single digit. *)
Definition field_d (s : string) : option Z :=
  match s with
  | String " " s' => field 1 1 1 9 s'
  | _ => field 1 2 1 31 s
  end.

(** [%f]: one to six digits, read as a fraction of a second. *)
Definition field_f (s : string) : option Z :=
  match field 1 6 0 999999 s with
  | Some v => Some (v * 10 ^ Z.of_nat (6 - String.length s))
  | None => None
  end.

Definition mismatch : exn := ValueError "time data does not match format".

Definition expect {A} (o : option A) : result A :=
  match o with
  | Some a => Ok a
  | None => Raise mismatch
  end.

(** [datetime.strptime(s, "%Y-%m-%dT%H:%M:%S.%f")].  Each directive stands
    for a pattern of digits ([%Y]: [\d\d\d\d]; [%m]: [1[0-2]|0[1-9]|[1-9]];
    [%H]: [2[0-3]|[0-1]\d|\d]; [%M]: [[0-5]\d|\d]; [%S]:
    [6[0-1]|[0-5]\d|\d]; [%f]: [[0-9]{1,6}]) followed by a literal that is
    no digit, and the whole string has to be consumed, so a field is the
    text up to the next literal and has to match its pattern as a whole. *)
Definition strptime (s : string) : result datetime :=
  yr <- expect (split_at "-" s) ;;
  mo <- expect (split_at "-" (snd yr)) ;;
  dy <- expect (split_at "T" (snd mo)) ;;
  hr <- expect (split_at ":" (snd dy)) ;;
  mi <- expect (split_at ":" (snd hr)) ;;
  se <- expect (split_at "." (snd mi)) ;;
  Y <- expect (field 4 4 0 9999 (fst yr)) ;;
  m <- expect (field 1 2 1 12 (fst mo)) ;;
  d <- expect (field_d (fst dy)) ;;
  H <- expect (field 1 2 0 23 (fst hr)) ;;
  M <- expect (field 1 2 0 59 (fst mi)) ;;
  S <- expect (field 1 2 0 61 (fst se)) ;;
  f <- expect (field_f (snd se)) ;;
  let t := {| year := Y; month := m; day := d; hour := H; minute := M;
              second := S; microsecond := f |} in
  if valid t then Ok t else Raise (ValueError "value out of range").

(** The literals of that format, and the strings in which a given
    character does not occur. *)
Definition literal (c : ascii) : Prop :=
  c = "-"%char \/ c = "T"%char \/ c = ":"%char \/ c = "."%char \/ c = " "%char.

Fixpoint free_of (sep : ascii) (s : string) : Prop :=
  match s with
  | EmptyString => True
  | String c s' => Ascii.eqb c sep = false /\ free_of sep s'
  end.

End datetime.

(** ** structures.py: the wire messages

    A serialized form is represented by the JSON value its text denotes:
    [json.loads] of what [json.dumps] wrote is that value again. *)

Module structures.

(** [class UserMessage(DepecheMessage)].  The text fields hold whatever
    value the constructor was given; [send_time] has to be a [datetime]. *)
Record UserMessage : Type := {
  exchange_ref : json;
  to_address : json;
  send_time : datetime.datetime;
  contents : json
}.

(** An object of the [DepecheMessage] hierarchy: a user message, or an
    object that carries a [type] and an [exchange_ref] only (the flow
    control messages, and what [DepecheMessage.deserialize] builds). *)
Inductive DepecheMessage : Type :=
| user_message (m : UserMessage)
| plain_message (type : json) (exchange_ref : json).

Definition type (m : DepecheMessage) : json :=
  match m with
  | user_message _ => JStr "user_message"
  | plain_message t _ => t
  end.

(** [StopSending()] and [NoMoreData()], with the [uuid4] they draw. *)
Definition StopSending (ref : string) : DepecheMessage :=
  plain_message (JStr "stop_sending") (JStr ref).

Definition NoMoreData (ref : string) : DepecheMessage :=
  plain_message (JStr "no_more_data") (JStr ref).

(** [DepecheMessage.serialize(self, d)] *)
Definition DepecheMessage_serialize (type exchange_ref : json)
    (d : list (string * json)) : json :=
  JObj (d ++ [("type"%string, type); ("exchange_ref"%string, exchange_ref)]).

(** [UserMessage.serialize] *)
Definition UserMessage_serialize (m : UserMessage) : json :=
  DepecheMessage_serialize (JStr "user_message") (exchange_ref m)
    [("to_address"%string, to_address m);
     ("send_time"%string, JStr (datetime.isoformat (send_time m)));
     ("contents"%string, contents m)].

Definition serialize (m : DepecheMessage) : json :=
  match m with
  | user_message u => UserMessage_serialize u
  | plain_message t r => DepecheMessage_serialize t r []
  end.

(** [DepecheMessage.deserialize], inherited by the flow control classes. *)
Definition DepecheMessage_deserialize (json_dict : json)
    : result DepecheMessage :=
  t <- py.subscript json_dict "type" ;;
  r <- py.subscript json_dict "exchange_ref" ;;
  Ok (plain_message t r).

(** [UserMessage.deserialize] *)
Definition UserMessage_deserialize (json_dict : json) : result UserMessage :=
  st <- py.subscript json_dict "send_time" ;;
  send_time <- match st with
               | JStr s => datetime.strptime s
               | _ => Raise TypeError
               end ;;
  to_address <- py.subscript json_dict "to_address" ;;
  contents <- py.subscript json_dict "contents" ;;
  exchange_ref <- py.subscript json_dict "exchange_ref" ;;
  Ok {| exchange_ref := exchange_ref; to_address := to_address;
        send_time := send_time; contents := contents |}.

(** [class_mapping[t].deserialize] *)
Definition class_mapping (t : json) : result (json -> result DepecheMessage) :=
  match t with
  | JStr s =>
      if String.eqb s "user_message" then
        Ok (fun d => u <- UserMessage_deserialize d ;; Ok (user_message u))
      else if String.eqb s "stop_sending" then Ok DepecheMessage_deserialize
      else if String.eqb s "no_more_data" then Ok DepecheMessage_deserialize
      else Raise (KeyError s)
  | JArr _ | JObj _ => Raise TypeError
  | _ => Raise (KeyError "")
  end.

(** [MessageContainer.serialize]: a JSON list of the messages. *)
Definition MessageContainer_serialize (messages : list DepecheMessage) : json :=
  JArr (map serialize messages).

Fixpoint deserialize_all (items : list json) : result (list DepecheMessage) :=
  match items with
  | [] => Ok []
  | message_dict :: rest =>
      t <- py.subscript message_dict "type" ;;
      msg_class <- class_mapping t ;;
      m <- msg_class message_dict ;;
      ms <- deserialize_all rest ;;
      Ok (m :: ms)
  end.

(** [MessageContainer.deserialize] *)
Definition MessageContainer_deserialize (serialized_form : json)
    : result (list DepecheMessage) :=
  json_array <- py.iter serialized_form ;;
  deserialize_all json_array.

(** A user message whose [send_time] is a valid timestamp that does not
    fall on a whole second. *)
Definition carries_fraction (m : UserMessage) : bool :=
  datetime.valid (send_time m)
  && negb (datetime.microsecond (send_time m) =? 0).

(** *** The default argument [d={}] of the [serialize] methods

    [serialize(self, d={})] writes its keys into [d] and dumps it.  The
    default value is one dict per method, created when the method is
    defined, so the calls that pass no [d] all write into the same dict:
    [UserMessage.serialize] into its own, the flow control messages into
    the one of [FlowControlMessage.serialize]. *)

(** [DepecheMessage.serialize(self, d)]: the dict after the call, which is
    also what is dumped. *)
Definition DepecheMessage_serialize_into (type exchange_ref : json)
    (d : list (string * json)) : list (string * json) :=
  py.dict_set "exchange_ref" exchange_ref (py.dict_set "type" type d).

(** [UserMessage.serialize(self, d)] *)
Definition UserMessage_serialize_into (m : UserMessage)
    (d : list (string * json)) : list (string * json) :=
  DepecheMessage_serialize_into (JStr "user_message") (exchange_ref m)
    (py.dict_set "contents" (contents m)
       (py.dict_set "send_time" (JStr (datetime.isoformat (send_time m)))
          (py.dict_set "to_address" (to_address m) d))).

(** [x.serialize()] called on one message after the other: the documents
    written, given the two default dicts as the earlier calls left them. *)
Fixpoint serialize_in_turn (messages : list DepecheMessage)
    (d_user d_flow : list (string * json)) : list json :=
  match messages with
  | [] => []
  | user_message u :: rest =>
      let d_user := UserMessage_serialize_into u d_user in
      JObj d_user :: serialize_in_turn rest d_user d_flow
  | plain_message t r :: rest =>
      let d_flow := DepecheMessage_serialize_into t r d_flow in
      JObj d_flow :: serialize_in_turn rest d_user d_flow
  end.

(** A message the receiving end can rebuild: a user message whose
    timestamp carries a fraction, or a flow control message. *)
Definition survives_wire (m : DepecheMessage) : bool :=
  match m with
  | user_message u => carries_fraction u
  | plain_message t _ =>
      py.eq_str t "stop_sending" || py.eq_str t "no_more_data"
  end.

(** The keys of [class_mapping]. *)
Definition registered (kind : string) : bool :=
  String.eqb kind "user_message" || String.eqb kind "stop_sending"
  || String.eqb kind "no_more_data".

(** The shape of the two default dicts once they have been written into. *)
Definition user_dict (d : list (string * json)) : Prop :=
  d = [] \/ exists a b c t r,
    d = [("to_address"%string, a); ("send_time"%string, b);
         ("contents"%string, c); ("type"%string, t);
         ("exchange_ref"%string, r)].

Definition flow_dict (d : list (string * json)) : Prop :=
  d = [] \/ exists t r, d = [("type"%string, t); ("exchange_ref"%string, r)].

End structures.

(** ** naive.py: announcements and their listeners *)

Module naive.

Import structures.

(** What [json.loads] makes of a text. *)
Inductive text : Type :=
| malformed
| document (v : json).

(** The bytes of a datagram, as [data.decode("utf-8")] sees them. *)
Inductive payload : Type :=
| undecodable
| utf8 (t : text).

(** [sock.recvfrom(DEFAULT_BUF_SIZE)] under the socket's read timeout. *)
Inductive recv_event : Type :=
| timed_out
| datagram (data : payload) (address : string).

Definition json_loads (t : text) : result json :=
  match t with
  | malformed => Raise JSONDecodeError
  | document v => Ok v
  end.

Definition decode (data : payload) : result text :=
  match data with
  | undecodable => Raise UnicodeDecodeError
  | utf8 t => Ok t
  end.

(** The document [_send_server_announcment] broadcasts. *)
Definition _send_server_announcment (server_type : string) (port : Z)
    (callsign : option string) : payload :=
  utf8 (document (JObj
    [("protocol"%string, JStr "depeche_ipadapter");
     ("version"%string, JInt 0);
     ("operation"%string, JStr "server_announcement");
     ("content"%string, JObj
        [("server_type"%string, JStr server_type);
         ("server_port"%string, JInt port);
         ("callsign"%string,
          match callsign with Some c => JStr c | None => JNull end)])])).

(** [_validate_announcement]: the conjunction is evaluated left to right
    and stops at the first operand that is false. *)
Definition _validate_announcement (broadcast_str : text) (server_type : string)
    : result bool :=
  broadcast <- json_loads broadcast_str ;;
  protocol <- py.subscript broadcast "protocol" ;;
  if negb (py.eq_str protocol "depeche_ipadapter") then Ok false else
  version <- py.subscript broadcast "version" ;;
  if negb (py.eq_int version 0) then Ok false else
  operation <- py.subscript broadcast "operation" ;;
  if negb (py.eq_str operation "server_announcement") then Ok false else
  content <- py.subscript broadcast "content" ;;
  ty <- py.subscript content "server_type" ;;
  if negb (py.eq_str ty server_type) then Ok false else
  content <- py.subscript broadcast "content" ;;
  server_port <- py.subscript content "server_port" ;;
  positive <- py.gt_0 server_port ;;
  Ok positive.

(** [_read_announcement_from_socket].  In the branch taken when the
    validation answers [False] the local [broadcast] has not been assigned
    when the log line reads it. *)
Definition _read_announcement_from_socket (ev : recv_event)
    (server_type : string) : result (string * json * json) :=
  match ev with
  | timed_out => Raise socket_timeout
  | datagram data address =>
      broadcast_str <- decode data ;;
      ok <- _validate_announcement broadcast_str server_type ;;
      if ok then
        broadcast <- json_loads broadcast_str ;;
        content <- py.subscript broadcast "content" ;;
        server_port <- py.subscript content "server_port" ;;
        content <- py.subscript broadcast "content" ;;
        callsign <- py.subscript content "callsign" ;;
        Ok (address, server_port, callsign)
      else Raise (UnboundLocalError "broadcast")
  end.

(** One turn of a listener's [while not self.done] loop: what the socket
    read produces, the clock reading an [except] clause would take, and
    whether another thread has set [done] before the loop test. *)
Record tick : Type := {
  arrival : recv_event;
  now : Z;
  stop_requested : bool
}.

Inductive outcome : Type :=
| stopped            (* the loop saw [done] and the method returned *)
| raised (e : exn)   (* an exception left the method: the thread is dead *)
| listening.         (* the loop is still running *)

Record trace : Type := {
  calls : list (string * json);
  final : outcome
}.

(** The [except] clauses the two listeners share: [Some done] when the
    exception is handled, [None] when it propagates. *)
Definition handle (timeout : option Z) (start now : Z) (e : exn)
    : option bool :=
  if is_ValueError e || match e with socket_timeout => true | _ => false end
  then
    match timeout with
    | Some t => Some (now - start >? t)
    | None => Some false
    end
  else
    match e with
    | ConnectionRefusedError => Some false
    | _ => None
    end.

(** [_ExchangeAnnouncementListener.listen] *)
Fixpoint _ExchangeAnnouncementListener_listen (own_callsign : option string)
    (timeout : option Z) (on_announcement : string -> json -> result unit)
    (start : Z) (done : bool) (ticks : list tick)
    (called : list (string * json)) : trace :=
  match ticks with
  | [] => {| calls := called; final := if done then stopped else listening |}
  | t :: rest =>
      if done || stop_requested t then {| calls := called; final := stopped |}
      else
        let attempt :=
          r <- _read_announcement_from_socket (arrival t) "exchange" ;;
          let '(ip_number, port, callsign) := r in
          if py.eq_opt_str callsign own_callsign then Ok called
          else
            match on_announcement ip_number port with
            | Ok _ => Ok (called ++ [(ip_number, port)])
            | Raise e => Raise e
            end in
        match attempt with
        | Ok called' =>
            _ExchangeAnnouncementListener_listen own_callsign timeout
              on_announcement start false rest called'
        | Raise e =>
            match handle timeout start (now t) e with
            | Some done' =>
                _ExchangeAnnouncementListener_listen own_callsign timeout
                  on_announcement start done' rest called
            | None => {| calls := called; final := raised e |}
            end
        end
  end.

(** [class RendezvousInfo] *)
Record RendezvousInfo : Type := {
  alias : string;
  address_pad : list string;
  public_key : string
}.

(** [_RendezvousAnnouncementListener.listen]; [initiate_rendezvous] sets
    [done] when it returns. *)
Fixpoint _RendezvousAnnouncementListener_listen
    (own_rendezvous_info : RendezvousInfo) (timeout : option Z)
    (initiate_rendezvous : string -> json -> result unit)
    (start : Z) (done : bool) (ticks : list tick)
    (called : list (string * json)) : trace :=
  match ticks with
  | [] => {| calls := called; final := if done then stopped else listening |}
  | t :: rest =>
      if done || stop_requested t then {| calls := called; final := stopped |}
      else
        let attempt :=
          r <- _read_announcement_from_socket (arrival t) "rendezvous" ;;
          let '(ip_number, port, callsign) := r in
          if py.eq_str callsign (alias own_rendezvous_info) then
            Ok (called, false)
          else
            match initiate_rendezvous ip_number port with
            | Ok _ => Ok (called ++ [(ip_number, port)], true)
            | Raise e => Raise e
            end in
        match attempt with
        | Ok (called', done') =>
            _RendezvousAnnouncementListener_listen own_rendezvous_info
              timeout initiate_rendezvous start done' rest called'
        | Raise e =>
            match handle timeout start (now t) e with
            | Some done' =>
                _RendezvousAnnouncementListener_listen own_rendezvous_info
                  timeout initiate_rendezvous start done' rest called
            | None => {| calls := called; final := raised e |}
            end
        end
  end.

(** [class TcpUdpAdapter]: the fields the listeners depend on. *)
Record TcpUdpAdapter : Type := {
  _callsign : string;
  rendezvous_server_port : Z
}.

(** [start_register_announcements]: the listener is constructed from
    [(on_announcement, port, timeout)], so its [own_callsign] keeps the
    default [None]. *)
Definition start_register_announcements (self : TcpUdpAdapter)
    (on_announcement : string -> json -> result unit) (timeout : option Z)
    (start : Z) (ticks : list tick) : trace :=
  _ExchangeAnnouncementListener_listen None timeout on_announcement start
    false ticks [].

(** The announcement chaser [rendezvous] starts. *)
Definition rendezvous_listener (self : TcpUdpAdapter)
    (rendezvous_info : RendezvousInfo) (timeout : Z)
    (initiate_rendezvous : string -> json -> result unit)
    (start : Z) (ticks : list tick) : trace :=
  _RendezvousAnnouncementListener_listen rendezvous_info (Some timeout)
    initiate_rendezvous start false ticks [].

(** A callback that always returns. *)
Definition returns : string -> json -> result unit := fun _ _ => Ok tt.

(** *** The rendezvous server's port search *)

(** The [while not success and tries < 10] loop of [_RendezvousServer.run];
    [can_bind] tells which ports [TCPServer] manages to open.  The result
    is the success flag, the final [self.port] and the ports tried. *)
Fixpoint rendezvous_port_loop (fuel : nat) (can_bind : Z -> bool)
    (port tries : Z) (tried : list Z) : option (bool * Z * list Z) :=
  if tries <? 10 then
    match fuel with
    | O => None
    | S fuel' =>
        let port := port + tries in
        if can_bind port then Some (true, port, tried ++ [port])
        else
          let tries := tries + 1 in
          rendezvous_port_loop fuel' can_bind port tries (tried ++ [port])
    end
  else Some (false, port, tried).

(** What [_RendezvousServer.run] puts on the status queue. *)
Inductive server_status : Type :=
| FAIL
| RUNNING (port : Z).

Definition _RendezvousServer_run (port : Z) (can_bind : Z -> bool)
    : option (server_status * list Z) :=
  match rendezvous_port_loop 10 can_bind port 0 [] with
  | None => None
  | Some (success, port, tried) =>
      Some (if success then RUNNING port else FAIL, tried)
  end.

(** [_create_socket_server], the port search of the exchange server. *)
Fixpoint _create_socket_server (fuel : nat) (can_bind : Z -> bool)
    (base_port max_port_offset tries : Z) (tried : list Z)
    : option (server_status * list Z) :=
  if tries <? max_port_offset then
    match fuel with
    | O => None
    | S fuel' =>
        let port := base_port + tries in
        if can_bind port then Some (RUNNING port, tried ++ [port])
        else
          let tries := tries + 1 in
          if tries >=? max_port_offset then Some (FAIL, tried ++ [port])
          else
            _create_socket_server fuel' can_bind base_port max_port_offset
              tries (tried ++ [port])
    end
  else Some (FAIL, tried).

(** The ports [base], [base + 1], ... the specification describes. *)
Definition consecutive_ports (base : Z) (n : nat) : list Z :=
  map (fun i => base + Z.of_nat i) (seq 0 n).

(** *** The message exchange loop

    A connection is a pair of queues, one per direction, of the payloads
    handed to [bytebundle.send] and not yet taken by [bytebundle.read]; a
    payload is the JSON document its UTF-8 text denotes. *)

(** [_send_messages]: the container sent, the flag [keep_sending] and the
    iterator after the call.  [ref] is the [uuid4] a [NoMoreData()] built
    here draws. *)
Definition _send_messages (ref : string) (keep_sending : bool)
    (messages_to_send : list UserMessage)
    : list DepecheMessage * bool * list UserMessage :=
  let '(outgoing_container, keep_sending, messages_to_send) :=
    if keep_sending then
      match messages_to_send with
      | outgoing_message :: rest =>
          ([user_message outgoing_message], true, rest)
      | [] => ([], false, [])
      end
    else ([], keep_sending, messages_to_send) in
  let outgoing_container :=
    if negb keep_sending then [NoMoreData ref] else outgoing_container in
  (outgoing_container, keep_sending, messages_to_send).

(** The [for message in received_data] loop of [_receive_messages]. *)
Fixpoint dispatch (received_data : list DepecheMessage)
    (keep_sending keep_receiving : bool) (handed : list DepecheMessage)
    : bool * bool * list DepecheMessage :=
  match received_data with
  | [] => (keep_sending, keep_receiving, handed)
  | message :: rest =>
      if py.eq_str (type message) "stop_sending" then
        dispatch rest false keep_receiving handed
      else if py.eq_str (type message) "no_more_data" then
        dispatch rest keep_sending false handed
      else dispatch rest keep_sending keep_receiving (handed ++ [message])
  end.

(** [_receive_messages] on the payload [bytebundle.read] returned; [handed]
    lists the arguments [on_message_received] has been called with. *)
Definition _receive_messages (payload : json)
    (keep_sending keep_receiving : bool) (handed : list DepecheMessage)
    : result (list DepecheMessage * (bool * bool * list DepecheMessage)) :=
  received_data <- MessageContainer_deserialize payload ;;
  Ok (received_data, dispatch received_data keep_sending keep_receiving handed).

(** Where an endpoint stands in [_message_exchange_loop]. *)
Inductive phase : Type :=
| sending            (* about to call [_send_messages] *)
| receiving          (* about to call [_receive_messages] *)
| finished           (* the loop has been left with both flags false *)
| crashed (e : exn).  (* an exception has left the loop *)

Record endpoint : Type := {
  at_phase : phase;
  keep_sending : bool;
  keep_receiving : bool;
  messages_to_send : list UserMessage;
  uuid4 : nat -> string;
  handed : list DepecheMessage;
  sent : list (list DepecheMessage);
  received : list (list DepecheMessage)
}.

(** [_message_exchange_loop] up to its first call. *)
Definition _message_exchange_loop (messages_array : list UserMessage)
    (start_sending : bool) (uuids : nat -> string) : endpoint :=
  {| at_phase := if start_sending then sending else receiving;
     keep_sending := true;
     keep_receiving := true;
     messages_to_send := messages_array;
     uuid4 := uuids;
     handed := [];
     sent := [];
     received := [] |}.

Definition gone (e : endpoint) : bool :=
  match at_phase e with
  | finished | crashed _ => true
  | _ => false
  end.

(** The loop's call of [_send_messages], followed by its test of the two
    flags: the endpoint afterwards and the container it has written. *)
Definition send_phase (me : endpoint) : endpoint * list DepecheMessage :=
  let '(container, ks, rest) :=
    _send_messages (uuid4 me (List.length (sent me))) (keep_sending me)
      (messages_to_send me) in
  ({| at_phase := if ks || keep_receiving me then receiving else finished;
      keep_sending := ks;
      keep_receiving := keep_receiving me;
      messages_to_send := rest;
      uuid4 := uuid4 me;
      handed := handed me;
      sent := sent me ++ [container];
      received := received me |},
   container).

(** An exception leaves the loop. *)
Definition crash (me : endpoint) (e : exn) : endpoint :=
  {| at_phase := crashed e;
     keep_sending := keep_sending me;
     keep_receiving := keep_receiving me;
     messages_to_send := messages_to_send me;
     uuid4 := uuid4 me;
     handed := handed me;
     sent := sent me;
     received := received me |}.

(** The loop's call of [_receive_messages] on a payload read. *)
Definition receive_phase (me : endpoint) (payload : json) : endpoint :=
  match _receive_messages payload (keep_sending me) (keep_receiving me)
          (handed me) with
  | Ok (container, (ks, kr, handed')) =>
      {| at_phase := sending;
         keep_sending := ks;
         keep_receiving := kr;
         messages_to_send := messages_to_send me;
         uuid4 := uuid4 me;
         handed := handed';
         sent := sent me;
         received := received me ++ [container] |}
  | Raise e => crash me e
  end.

(** One call of the loop body: the endpoint afterwards, its inbound queue
    and what it has written.  A read blocks ([None]) while the queue is
    empty and the peer is still there; once the peer has closed, the read
    gets no bytes and [bytebundle.read] raises. *)
Definition move (me : endpoint) (inbox : list json) (peer_gone : bool)
    : option (endpoint * list json * list json) :=
  match at_phase me with
  | sending =>
      let (me', container) := send_phase me in
      Some (me', inbox, [MessageContainer_serialize container])
  | receiving =>
      match inbox with
      | payload :: inbox' => Some (receive_phase me payload, inbox', [])
      | [] =>
          if peer_gone then
            Some (crash me
                    (RuntimeError "Protocol does not match data received"),
                  [], [])
          else None
      end
  | finished | crashed _ => None
  end.

(** Two endpoints and the connection between them. *)
Record exchange : Type := {
  connector : endpoint;
  acceptor : endpoint;
  to_acceptor : list json;
  to_connector : list json
}.

(** Either endpoint takes its next call, in any interleaving. *)
Inductive step : exchange -> exchange -> Prop :=
| connector_moves x me inbox out :
    move (connector x) (to_connector x) (gone (acceptor x))
    = Some (me, inbox, out) ->
    step x {| connector := me; acceptor := acceptor x;
              to_acceptor := to_acceptor x ++ out; to_connector := inbox |}
| acceptor_moves x me inbox out :
    move (acceptor x) (to_acceptor x) (gone (connector x))
    = Some (me, inbox, out) ->
    step x {| connector := connector x; acceptor := me;
              to_acceptor := inbox; to_connector := to_connector x ++ out |}.

(** [runs_to x y]: whatever the interleaving, the exchange started in [x]
    takes finitely many steps and comes to rest in [y]. *)
Inductive runs_to : exchange -> exchange -> Prop :=
| runs_rest x : (forall y, ~ step x y) -> runs_to x x
| runs_step x y z :
    step x y -> (forall y', step x y' -> y' = y) -> runs_to y z ->
    runs_to x z.

(** The exchange of one connection: [A] dials and starts sending, [B] has
    accepted. *)
Definition connect (messages_A messages_B : list UserMessage)
    (uuids_A uuids_B : nat -> string) : exchange :=
  {| connector := _message_exchange_loop messages_A true uuids_A;
     acceptor := _message_exchange_loop messages_B false uuids_B;
     to_acceptor := [];
     to_connector := [] |}.

(** A scheduler for running examples: the connector when it can move,
    else the acceptor. *)
Definition next (x : exchange) : option exchange :=
  match move (connector x) (to_connector x) (gone (acceptor x)) with
  | Some (me, inbox, out) =>
      Some {| connector := me; acceptor := acceptor x;
              to_acceptor := to_acceptor x ++ out; to_connector := inbox |}
  | None =>
      match move (acceptor x) (to_acceptor x) (gone (connector x)) with
      | Some (me, inbox, out) =>
          Some {| connector := connector x; acceptor := me;
                  to_acceptor := inbox; to_connector := to_connector x ++ out |}
      | None => None
      end
  end.

Fixpoint run (fuel : nat) (x : exchange) : exchange :=
  match fuel with
  | O => x
  | S fuel' =>
      match next x with
      | Some y => run fuel' y
      | None => x
      end
  end.

Definition is_no_more_data (m : DepecheMessage) : bool :=
  py.eq_str (type m) "no_more_data".

(** The number of containers of a log that hold a [no_more_data]. *)
Definition no_more_data_count (log : list (list DepecheMessage)) : nat :=
  List.length (filter (existsb is_no_more_data) log).

(** *** The exchange, one turn at a time

    While both endpoints follow the loop, they take turns: one endpoint
    has just written a container and waits, the other reads it and
    writes its own. *)

(** The exchange in which [p] is the connector ([side = true]) or the
    acceptor, [q] is its peer, and [to_q], [to_p] are the queues towards
    them. *)
Definition place (side : bool) (p q : endpoint) (to_q to_p : list json)
    : exchange :=
  if side then
    {| connector := p; acceptor := q; to_acceptor := to_q; to_connector := to_p |}
  else
    {| connector := q; acceptor := p; to_acceptor := to_p; to_connector := to_q |}.

(** The messages of a container that [_receive_messages] hands to the
    callback. *)
Definition user_messages (container : list DepecheMessage)
    : list DepecheMessage :=
  filter
    (fun m => negb (py.eq_str (type m) "stop_sending"
                    || py.eq_str (type m) "no_more_data"))
    container.

(** A flag that is down has its [no_more_data] in the log. *)
Definition logged (e : endpoint) : Prop :=
  (keep_sending e = false -> (1 <= no_more_data_count (sent e))%nat)
  /\ (keep_receiving e = false -> (1 <= no_more_data_count (received e))%nat).

(** The loop has been left with both flags down. *)
Definition done (e : endpoint) : Prop :=
  at_phase e = finished /\ keep_sending e = false /\ keep_receiving e = false.

(** What [p] has just written: a user message while it keeps sending, a
    [no_more_data] afterwards. *)
Definition last_sent (p : endpoint) (x : list DepecheMessage) : Prop :=
  if keep_sending p then
    exists m, x = [user_message m] /\ carries_fraction m = true
  else exists ref, x = [NoMoreData ref].

(** It is [q]'s turn: [p] has written [x] and has read all that [q] has
    written so far. *)
Definition in_turn (p q : endpoint) (x : list DepecheMessage) : Prop :=
  at_phase p
  = (if keep_sending p || keep_receiving p then receiving else finished)
  /\ at_phase q = receiving
  /\ last_sent p x
  /\ keep_receiving p = keep_sending q
  /\ (keep_receiving q = false -> keep_sending p = false)
  /\ (keep_sending p = false -> messages_to_send p = [])
  /\ (keep_sending q = false -> messages_to_send q = [])
  /\ forallb carries_fraction (messages_to_send p) = true
  /\ forallb carries_fraction (messages_to_send q) = true
  /\ logged p
  /\ logged q.

(** What an endpoint still has to do, and a bound on the turns left. *)
Definition pending (e : endpoint) : nat :=
  List.length (messages_to_send e)
  + (if keep_sending e then 1 else 0)
  + (if keep_receiving e then 1 else 0).

Definition turns_left (p q : endpoint) : nat :=
  2 * (pending p + pending q) + (if keep_sending q then 0 else 1).

(** *** What a listener can hear in one turn of its loop *)







(** [message.type == StopSending.message_type] *)
Definition is_stop_sending (m : DepecheMessage) : bool :=
  py.eq_str (type m) "stop_sending".

(** The offsets [0, 1, 3, 6, 10, ...] at which the loop of
    [_RendezvousServer.run] arrives by adding [tries] to [self.port] in
    every turn. *)
Definition triangular (i : Z) : Z := i * (i + 1) / 2.

Definition triangular_ports (base : Z) (n : nat) : list Z :=
  map (fun i => base + triangular (Z.of_nat i)) (seq 0 n).

End naive.

(** ** structures.py: the rendezvous data *)

Module rendezvous_info.

Import structures naive.

(** [RendezvousInfo.serialize] *)
Definition RendezvousInfo_serialize (info : RendezvousInfo) : json :=
  JObj
    [("type"%string, JStr "rendezvous_info");
     ("alias"%string, JStr (alias info));
     ("address_pad"%string, JArr (map JStr (address_pad info)));
     ("public_key"%string, JStr (public_key info))].

(** An object built by [RendezvousInfo.deserialize]: its fields hold the
    values of the document, whatever their types. *)
Record RendezvousInfo_object : Type := {
  _alias : json;
  _address_pad : json;
  _public_key : json
}.

Definition as_object (info : RendezvousInfo) : RendezvousInfo_object :=
  {| _alias := JStr (alias info);
     _address_pad := JArr (map JStr (address_pad info));
     _public_key := JStr (public_key info) |}.

Definition cannot_be_deserialized : exn :=
  RuntimeError "String cannot be deserialied into a valid RendezvousInfo".

(** [RendezvousInfo.deserialize]: the operands of the [or] are evaluated
    left to right up to the first that holds; the constructor is given
    three values that are not [None] and keeps them. *)
Definition RendezvousInfo_deserialize (obj : json)
    : result RendezvousInfo_object :=
  type <- py.subscript obj "type" ;;
  if negb (py.eq_str type "rendezvous_info") then Raise cannot_be_deserialized
  else
  alias <- py.subscript obj "alias" ;;
  if py.is_None alias then Raise cannot_be_deserialized else
  address_pad <- py.subscript obj "address_pad" ;;
  if py.is_None address_pad then Raise cannot_be_deserialized else
  public_key <- py.subscript obj "public_key" ;;
  if py.is_None public_key then Raise cannot_be_deserialized else
  alias <- py.subscript obj "alias" ;;
  address_pad <- py.subscript obj "address_pad" ;;
  public_key <- py.subscript obj "public_key" ;;
  Ok {| _alias := alias; _address_pad := address_pad;
        _public_key := public_key |}.

End rendezvous_info.

(** ** sqlite_storage.py: the address and key store

    A table is the list of its rows in scan order; [SELECT], [DELETE] and
    the joins are the corresponding list operations. *)

Module sqlite_storage.

Record nacl_key_row : Type := {
  k_id : string;
  k_is_own : bool;
  k_private_key : option string;
  k_public_key : string
}.

Record own_address_row : Type := {
  oa_id : string;
  oa_given_to : option string;
  oa_key_id : string;
  oa_is_used : bool
}.

Record foreign_address_row : Type := {
  fa_id : string;
  fa_contact_id : string;
  fa_key_id : string;
  fa_is_used : bool
}.

Record message_row : Type := {
  m_id : string;
  m_meta_received_at : string;
  m_meta_last_seen_at : string;
  m_meta_forward_count : Z;
  m_header_address : string;
  m_header_sent_at : string;
  m_body_contents : string
}.

Record db : Type := {
  nacl_key : list nacl_key_row;
  own_address : list own_address_row;
  foreign_address : list foreign_address_row;
  message : list message_row
}.

(** [read_message]: [SELECT * FROM message WHERE id = ? LIMIT 1] *)
Definition read_message (d : db) (message_id : string) : option message_row :=
  find (fun r => String.eqb (m_id r) message_id) (message d).

(** [nacl_key JOIN own_address ON nacl_key.id = own_address.key_id] *)
Definition key_join_address (d : db)
    : list (nacl_key_row * own_address_row) :=
  flat_map
    (fun k =>
       map (fun a => (k, a))
         (filter (fun a => String.eqb (k_id k) (oa_key_id a)) (own_address d)))
    (nacl_key d).

(** [get_own_address_nacl_key]: the last row of the cursor wins. *)
Definition get_own_address_nacl_key (d : db) (address_id : string)
    : option string * option string :=
  fold_left
    (fun result row => (Some (k_id (fst row)), k_private_key (fst row)))
    (filter
       (fun row => k_is_own (fst row) && String.eqb (oa_id (snd row)) address_id)
       (key_join_address d))
    (None, None).

(** [remove_own_address]: [DELETE FROM own_address WHERE id = ?] *)
Definition remove_own_address (d : db) (address : string) : db :=
  {| nacl_key := nacl_key d;
     own_address :=
       filter (fun a => negb (String.eqb (oa_id a) address)) (own_address d);
     foreign_address := foreign_address d;
     message := message d |}.

(** Both address tables declare [FOREIGN KEY(key_id) REFERENCES
    nacl_key(id)], and the connection runs with [PRAGMA foreign_keys = ON]. *)
Definition key_referenced (d : db) (key_id : string) : bool :=
  existsb (fun a => String.eqb (oa_key_id a) key_id) (own_address d)
  || existsb (fun a => String.eqb (fa_key_id a) key_id) (foreign_address d).

Definition is_own_key (key_id : string) (k : nacl_key_row) : bool :=
  String.eqb (k_id k) key_id && k_is_own k.

(** [remove_own_nacl_key]: [DELETE FROM nacl_key WHERE id = ? AND is_own = ?]
    with [True]; deleting a row some address still refers to violates the
    foreign key and changes nothing. *)
Definition remove_own_nacl_key (d : db) (key_id : string) : result db :=
  if existsb (is_own_key key_id) (nacl_key d) && key_referenced d key_id then
    Raise IntegrityError
  else
    Ok {| nacl_key := filter (fun k => negb (is_own_key key_id k)) (nacl_key d);
          own_address := own_address d;
          foreign_address := foreign_address d;
          message := message d |}.

(** [clean_out_received_message] *)
Definition clean_out_received_message (d : db) (message_id : string)
    : result db :=
  match read_message d message_id with
  | None => Raise AttributeError
  | Some msg =>
      match get_own_address_nacl_key d (m_header_address msg) with
      | (None, _) => Ok d
      | (Some key_id, _) =>
          let d := remove_own_address d (m_header_address msg) in
          match remove_own_nacl_key d key_id with
          | Ok d' => Ok d'
          | Raise IntegrityError => Ok d
          | Raise e => Raise e
          end
      end
  end.

(** [nacl_key LEFT JOIN own_address ON nacl_key.id = own_address.key_id
    WHERE nacl_key.is_own = 1] *)
Definition own_key_left_join_address (d : db)
    : list (nacl_key_row * option own_address_row) :=
  filter (fun row => k_is_own (fst row))
    (flat_map
       (fun k =>
          match filter (fun a => String.eqb (k_id k) (oa_key_id a))
                  (own_address d) with
          | [] => [(k, None)]
          | matches => map (fun a => (k, Some a)) matches
          end)
       (nacl_key d)).

(** [get_least_used_own_nacl_key].  The query aggregates with [COUNT] and
    has no [GROUP BY]: SQLite returns one row, with the count taken over
    the whole join and [id] and [public_key] taken from one row of the
    join that it selects arbitrarily; [arbitrary_row n] is the position it
    selects among [n] rows.  On an empty join the columns are [NULL]. *)
Definition get_least_used_own_nacl_key (arbitrary_row : nat -> nat) (d : db)
    : option string * option string :=
  let rows := own_key_left_join_address d in
  match nth_error rows (arbitrary_row (List.length rows)) with
  | Some (k, _) => (Some (k_id k), Some (k_public_key k))
  | None =>
      match rows with
      | (k, _) :: _ => (Some (k_id k), Some (k_public_key k))
      | [] => (None, None)
      end
  end.

(** The number of own-address records that refer to a key. *)
Definition usage (d : db) (key_id : string) : nat :=
  List.length
    (filter (fun a => String.eqb (oa_key_id a) key_id) (own_address d)).

(** The store holds an own key with this id. *)
Definition has_own_key (d : db) (key_id : string) : Prop :=
  exists k, In k (nacl_key d) /\ k_id k = key_id /\ k_is_own k = true.

(** An own address other than [address] refers to the key. *)
Definition other_own_address (d : db) (address key_id : string) : Prop :=
  exists a, In a (own_address d) /\ oa_id a <> address /\ oa_key_id a = key_id.

(** A contact address refers to the key. *)
Definition contact_address_on (d : db) (key_id : string) : Prop :=
  exists a, In a (foreign_address d) /\ fa_key_id a = key_id.

(** The clean-out contract for one stored message, with the condition
    under which the key record goes left open. *)
Definition cleans_out (d : db) (message_id : string)
    (orphaned : db -> string -> string -> Prop) : Prop :=
  forall msg key_id private_key,
    read_message d message_id = Some msg ->
    get_own_address_nacl_key d (m_header_address msg)
    = (Some key_id, private_key) ->
    exists d',
      clean_out_received_message d message_id = Ok d'
      /\ (forall a, In a (own_address d') -> oa_id a <> m_header_address msg)
      /\ get_own_address_nacl_key d' (m_header_address msg) = (None, None)
      /\ (~ has_own_key d' key_id <-> orphaned d (m_header_address msg) key_id)
      /\ clean_out_received_message d' message_id = Ok d'.

(** *** The other operations of [SqliteStorage] *)

Definition set_nacl_key (d : db) (rows : list nacl_key_row) : db :=
  {| nacl_key := rows; own_address := own_address d;
     foreign_address := foreign_address d; message := message d |}.

Definition set_own_address (d : db) (rows : list own_address_row) : db :=
  {| nacl_key := nacl_key d; own_address := rows;
     foreign_address := foreign_address d; message := message d |}.

Definition set_foreign_address (d : db) (rows : list foreign_address_row) : db :=
  {| nacl_key := nacl_key d; own_address := own_address d;
     foreign_address := rows; message := message d |}.

Definition set_message (d : db) (rows : list message_row) : db :=
  {| nacl_key := nacl_key d; own_address := own_address d;
     foreign_address := foreign_address d; message := rows |}.

(** [store_message] of a user message whose [to_address] and [contents]
    are the given strings and whose [send_time] sqlite3 adapts to the text
    [send_time]; [now] is what [datetime('now')] yields.  An [INSERT] that
    meets the id in the table violates the primary key; the method logs
    the [IntegrityError] and returns the id all the same. *)
Definition store_message (sha256 : string -> string) (now : string) (d : db)
    (to_address send_time contents : string) : string * db :=
  let message_id := sha256 contents in
  if existsb (fun r => String.eqb (m_id r) message_id) (message d) then
    (message_id, d)
  else
    (message_id,
     set_message d
       (message d
        ++ [{| m_id := message_id; m_meta_received_at := now;
               m_meta_last_seen_at := now; m_meta_forward_count := 0;
               m_header_address := to_address;
               m_header_sent_at := send_time;
               m_body_contents := contents |}])).



(** [own_address.given_to IS NOT NULL] *)
Definition is_given (a : own_address_row) : bool :=
  match oa_given_to a with Some _ => true | None => false end.

(** [get_my_message_hashes]: [message JOIN own_address ON own_address.id =
    message.header_address WHERE own_address.given_to IS NOT NULL], the
    messages scanned in table order. *)
Definition get_my_message_hashes (d : db) : list string :=
  flat_map
    (fun m =>
       map (fun _ => m_id m)
         (filter
            (fun a => String.eqb (oa_id a) (m_header_address m) && is_given a)
            (own_address d)))
    (message d).

(** The table [nacl_key] holds a row with this id. *)
Definition has_key (d : db) (key_id : string) : bool :=
  existsb (fun k => String.eqb (k_id k) key_id) (nacl_key d).

(** [store_own_nacl_key] and [store_contact_nacl_key]; [uuid4] is the id
    drawn, and an id the table holds violates the primary key. *)
Definition store_own_nacl_key (uuid4 : string) (d : db)
    (private_key public_key : string) : result (string * db) :=
  if has_key d uuid4 then Raise IntegrityError
  else
    Ok (uuid4,
        set_nacl_key d
          (nacl_key d
           ++ [{| k_id := uuid4; k_is_own := true;
                  k_private_key := Some private_key;
                  k_public_key := public_key |}])).

Definition store_contact_nacl_key (uuid4 : string) (d : db)
    (public_key : string) : result (string * db) :=
  if has_key d uuid4 then Raise IntegrityError
  else
    Ok (uuid4,
        set_nacl_key d
          (nacl_key d
           ++ [{| k_id := uuid4; k_is_own := false; k_private_key := None;
                  k_public_key := public_key |}])).

(** [mark_own_address]: [UPDATE own_address SET is_used = ? WHERE id = ?] *)
Definition mark_own_address (d : db) (address : string) : db :=
  set_own_address d
    (map
       (fun a =>
          if String.eqb (oa_id a) address then
            {| oa_id := oa_id a; oa_given_to := oa_given_to a;
               oa_key_id := oa_key_id a; oa_is_used := true |}
          else a)
       (own_address d)).

(** [is_own_unused_address]:
    [SELECT COUNT( * ) FROM own_address WHERE id = ? AND is_used = ?] *)
Definition is_own_unused_address (d : db) (address : string) : bool :=
  Z.of_nat
    (List.length
       (filter (fun a => String.eqb (oa_id a) address && negb (oa_is_used a))
          (own_address d)))
  >? 0.

(** [mark_contact_address]:
    [UPDATE foreign_address SET is_used = ? WHERE id = ?] *)
Definition mark_contact_address (d : db) (address_id : string) : db :=
  set_foreign_address d
    (map
       (fun a =>
          if String.eqb (fa_id a) address_id then
            {| fa_id := fa_id a; fa_contact_id := fa_contact_id a;
               fa_key_id := fa_key_id a; fa_is_used := true |}
          else a)
       (foreign_address d)).

(** [contact.Address(row[0], row[1], public_key=row[2])] *)
Record Address : Type := {
  ad_address_id : string;
  ad_key_id : string;
  ad_public_key : string
}.

(** [foreign_address AS fa JOIN nacl_key ON fa.key_id = nacl_key.id WHERE
    fa.contact_id = ? AND fa.is_used = ?] with [False], the addresses
    scanned in table order. *)
Definition unused_addresses (d : db) (contact_id : string) : list Address :=
  flat_map
    (fun fa =>
       map
         (fun k =>
            {| ad_address_id := fa_id fa; ad_key_id := fa_key_id fa;
               ad_public_key := k_public_key k |})
         (filter (fun k => String.eqb (fa_key_id fa) (k_id k)) (nacl_key d)))
    (filter
       (fun fa => String.eqb (fa_contact_id fa) contact_id && negb (fa_is_used fa))
       (foreign_address d)).

(** [get_address_pad_nacl]; a negative [LIMIT] is no limit. *)
Definition get_address_pad_nacl (d : db) (contact_id : string)
    (size : option Z) : list Address :=
  match size with
  | None => unused_addresses d contact_id
  | Some n =>
      if n <? 0 then unused_addresses d contact_id
      else firstn (Z.to_nat n) (unused_addresses d contact_id)
  end.

(** [get_unused_address_count] *)
Definition get_unused_address_count (d : db) (contact_id : string) : Z :=
  Z.of_nat (List.length (unused_addresses d contact_id)).

(** The [contact] table, and the database with it. *)
Record contact_row : Type := {
  c_id : string;
  c_nickname : string;
  c_alias : string;
  c_created_at : string;
  c_modified_at : string
}.

Record store : Type := {
  tables : db;
  contact : list contact_row
}.

Definition has_contact (s : store) (contact_id : string) : bool :=
  existsb (fun c => String.eqb (c_id c) contact_id) (contact s).

(** [store_contact]; [uuid4] is the id drawn. *)
Definition store_contact (uuid4 now : string) (s : store)
    (nickname alias : string) : result (string * store) :=
  if has_contact s uuid4 then Raise IntegrityError
  else
    Ok (uuid4,
        {| tables := tables s;
           contact :=
             contact s
             ++ [{| c_id := uuid4; c_nickname := nickname; c_alias := alias;
                    c_created_at := now; c_modified_at := now |}] |}).

(** Both address tables declare a foreign key on [contact(id)]. *)
Definition contact_referenced (s : store) (contact_id : string) : bool :=
  existsb (fun a => String.eqb (fa_contact_id a) contact_id)
    (foreign_address (tables s))
  || existsb
       (fun a =>
          match oa_given_to a with
          | Some c => String.eqb c contact_id
          | None => false
          end)
       (own_address (tables s)).

(** [remove_contact]: [DELETE FROM contact WHERE id = ?] *)
Definition remove_contact (s : store) (contact_id : string) : result store :=
  if has_contact s contact_id && contact_referenced s contact_id then
    Raise IntegrityError
  else
    Ok {| tables := tables s;
          contact :=
            filter (fun c => negb (String.eqb (c_id c) contact_id)) (contact s) |}.

(** [read_contact]: [SELECT * FROM contact WHERE id = ? LIMIT 1] *)
Definition read_contact (s : store) (contact_id : string) : option contact_row :=
  find (fun c => String.eqb (c_id c) contact_id) (contact s).

(** [store_own_address]: an [INSERT] checked against the primary key and
    the two foreign keys. *)
Definition store_own_address (s : store) (address contact_id key_id : string)
    : result store :=
  let d := tables s in
  if existsb (fun a => String.eqb (oa_id a) address) (own_address d)
     || negb (has_contact s contact_id)
     || negb (has_key d key_id)
  then Raise IntegrityError
  else
    Ok {| tables :=
            set_own_address d
              (own_address d
               ++ [{| oa_id := address; oa_given_to := Some contact_id;
                      oa_key_id := key_id; oa_is_used := false |}]);
          contact := contact s |}.

(** [store_contact_address]: [REPLACE INTO foreign_address] deletes the row
    that holds the id, if any, and inserts the new one. *)
Definition store_contact_address (s : store) (contact_id address key_id : string)
    : result store :=
  let d := tables s in
  if negb (has_contact s contact_id) || negb (has_key d key_id) then
    Raise IntegrityError
  else
    Ok {| tables :=
            set_foreign_address d
              (filter (fun a => negb (String.eqb (fa_id a) address))
                 (foreign_address d)
               ++ [{| fa_id := address; fa_contact_id := contact_id;
                      fa_key_id := key_id; fa_is_used := false |}]);
          contact := contact s |}.

(** The primary keys hold. *)
Definition message_ids_unique (d : db) : Prop := NoDup (map m_id (message d)).
Definition key_ids_unique (d : db) : Prop := NoDup (map k_id (nacl_key d)).

End sqlite_storage.

(** ** ui/common.py: saving the outcome of a rendezvous *)

Module common.

Import sqlite_storage.

(** The inner loop of [rendezvous_save_info]: the store as the last
    successful call left it, also when a call raises. *)
Fixpoint store_own_addresses (s : store) (address_pad : list string)
    (contact_id key_id : string) : result unit * store :=
  match address_pad with
  | [] => (Ok tt, s)
  | adr :: rest =>
      match store_own_address s adr contact_id key_id with
      | Ok s' => store_own_addresses s' rest contact_id key_id
      | Raise e => (Raise e, s)
      end
  end.

(** [rendezvous_save_info]; [uuid_contact] and [uuid_key] are the ids the
    two [store_] calls draw.  The [return True] stands in the body of the
    loop over the foreign address pad: the loop is left in its first turn,
    and with an empty pad the function returns [None]. *)
Definition rendezvous_save_info (uuid_contact uuid_key now : string)
    (s : store) (key_id : string) (own_info foreign_info : naive.RendezvousInfo)
    : result (option bool) * store :=
  match store_contact uuid_contact now s (naive.alias foreign_info)
          (naive.alias own_info) with
  | Raise e => (Raise e, s)
  | Ok (contact_id, s) =>
      match store_contact_nacl_key uuid_key (tables s)
              (naive.public_key foreign_info) with
      | Raise e => (Raise e, s)
      | Ok (contact_key_id, d) =>
          let s := {| tables := d; contact := contact s |} in
          match naive.address_pad foreign_info with
          | [] => (Ok None, s)
          | adr :: _ =>
              match store_contact_address s contact_id adr contact_key_id with
              | Raise e => (Raise e, s)
              | Ok s =>
                  match store_own_addresses s (naive.address_pad own_info)
                          contact_id key_id with
                  | (Raise e, s) => (Raise e, s)
                  | (Ok _, s) => (Ok (Some true), s)
                  end
              end
          end
      end
  end.

(** No row of [own_address] holds one of the addresses. *)
Definition fresh_own_addresses (d : db) (addresses : list string) : Prop :=
  NoDup addresses
  /\ forall a row, In a addresses -> In row (own_address d) -> oa_id row <> a.

End common.

(** ** Sample inputs *)

Module samples.

Import datetime structures naive sqlite_storage.

(** A timestamp on a whole second, and one with a fraction. *)
Definition whole_second : datetime :=
  {| year := 2020; month := 1; day := 1; hour := 0; minute := 0; second := 0;
     microsecond := 0 |}.

Definition with_fraction : datetime :=
  {| year := 2020; month := 1; day := 2; hour := 3; minute := 4; second := 5;
     microsecond := 1200 |}.

Definition message_on_whole_second : UserMessage :=
  {| exchange_ref := JStr "6f1c";
     to_address := JStr "ADR-1";
     send_time := whole_second;
     contents := JStr "c1" |}.

Definition message_with_fraction : UserMessage :=
  {| exchange_ref := JStr "7a2d";
     to_address := JStr "ADR-2";
     send_time := with_fraction;
     contents := JStr "c2" |}.

Definition uuids (n : nat) : string := "0b5e"%string.

(** One turn of a listener in which a datagram arrives. *)
Definition hears (data : payload) (address : string) : tick :=
  {| arrival := datagram data address; now := 1; stop_requested := false |}.

Definition quiet : tick :=
  {| arrival := timed_out; now := 2; stop_requested := false |}.

Definition node : TcpUdpAdapter :=
  {| _callsign := "c0de"; rendezvous_server_port := 27273 |}.

Definition info : RendezvousInfo :=
  {| alias := "alpha"; address_pad := ["ADR-1"%string]; public_key := "38464abd" |}.

(** An exchange announcement in which only the protocol name is wrong. *)
Definition foreign_protocol : payload :=
  utf8 (document (JObj
    [("protocol"%string, JStr "other");
     ("version"%string, JInt 0);
     ("operation"%string, JStr "server_announcement");
     ("content"%string, JObj
        [("server_type"%string, JStr "exchange");
         ("server_port"%string, JInt 27272);
         ("callsign"%string, JStr "beef")])])).

(** A JSON object without the field [protocol]. *)
Definition no_protocol : payload :=
  utf8 (document (JObj [("version"%string, JInt 0)])).

(** An announcement whose port is a string. *)
Definition port_as_text : payload :=
  utf8 (document (JObj
    [("protocol"%string, JStr "depeche_ipadapter");
     ("version"%string, JInt 0);
     ("operation"%string, JStr "server_announcement");
     ("content"%string, JObj
        [("server_type"%string, JStr "exchange");
         ("server_port"%string, JStr "27272");
         ("callsign"%string, JStr "beef")])])).

Definition own_key (id : string) : nacl_key_row :=
  {| k_id := id; k_is_own := true; k_private_key := Some "priv"%string;
     k_public_key := "pub" |}.

Definition own_addr (id key : string) : own_address_row :=
  {| oa_id := id; oa_given_to := Some "contact"%string; oa_key_id := key;
     oa_is_used := false |}.

Definition stored (id address : string) : message_row :=
  {| m_id := id; m_meta_received_at := "t"; m_meta_last_seen_at := "t";
     m_meta_forward_count := 0; m_header_address := address;
     m_header_sent_at := "t"; m_body_contents := "c" |}.

(** An own key that backs one own address and one contact address. *)
Definition shared_key_db : db :=
  {| nacl_key := [own_key "k"];
     own_address := [own_addr "a1" "k"];
     foreign_address :=
       [{| fa_id := "f1"; fa_contact_id := "contact"; fa_key_id := "k";
           fa_is_used := false |}];
     message := [stored "m1" "a1"] |}.

(** The store of the clean-out scenario: two own addresses on one key. *)
Definition two_address_db : db :=
  {| nacl_key := [own_key "k"];
     own_address := [own_addr "a1" "k"; own_addr "a2" "k"];
     foreign_address := [];
     message := [stored "m1" "a1"] |}.

(** Three own keys; only the second one backs no address. *)
Definition three_key_db : db :=
  {| nacl_key := [own_key "k1"; own_key "k2"; own_key "k3"];
     own_address := [own_addr "a1" "k1"; own_addr "a3" "k3"];
     foreign_address := [];
     message := [] |}.


(** A store with one contact and one own key. *)
Definition contact_store : store :=
  {| tables :=
       {| nacl_key := [own_key "k"]; own_address := [];
          foreign_address := []; message := [] |};
     contact :=
       [{| c_id := "contact"; c_nickname := "nick"; c_alias := "alpha";
           c_created_at := "t"; c_modified_at := "t" |}] |}.

(** That store after [store_contact_address("contact", "f1", "k")], and
    after [store_own_address("a9", "contact", "k")]. *)
Definition contact_store_with_address : store :=
  {| tables :=
       {| nacl_key := [own_key "k"]; own_address := [];
          foreign_address :=
            [{| fa_id := "f1"; fa_contact_id := "contact"; fa_key_id := "k";
                fa_is_used := false |}];
          message := [] |};
     contact := contact contact_store |}.

Definition contact_store_with_own_address : store :=
  {| tables :=
       {| nacl_key := [own_key "k"];
          own_address := [own_addr "a9" "k"];
          foreign_address := []; message := [] |};
     contact := contact contact_store |}.

(** A store that holds an own key and nothing else, and what the peer of
    a rendezvous has sent. *)
Definition key_store : store :=
  {| tables :=
       {| nacl_key := [own_key "k"]; own_address := [];
          foreign_address := []; message := [] |};
     contact := [] |}.

Definition foreign_info : RendezvousInfo :=
  {| alias := "beta"; address_pad := ["ADR-7"%string; "ADR-8"%string];
     public_key := "a1b2c3" |}.


End samples.

(** * Properties *)

(** ** The segment codec *)

Module bytebundle_facts.

Import bytebundle.

Lemma Z_of_byte_of_Z (z : Z) : Z_of_byte (byte_of_Z z) = z mod 256.
Proof.
  unfold Z_of_byte, byte_of_Z.
  assert (Hb : 0 <= z mod 256 < 256) by (apply Z.mod_pos_bound; lia).
  destruct (Byte.of_N (Z.to_N (z mod 256))) as [b|] eqn:E.
  - apply Byte.to_of_N in E. rewrite E. apply Z2N.id. lia.
  - apply Byte.of_N_None_iff in E. lia.
Qed.

(** A length below [2 ^ 32] survives the header. *)
Lemma int_from_bytes_c_uint32 (n : Z) :
  0 <= n < 2 ^ 32 -> int_from_bytes (c_uint32 n) = n.
Proof.
  intros Hn. unfold int_from_bytes, c_uint32. cbn [fold_left].
  rewrite !Z_of_byte_of_Z.
  change (2 ^ 24) with 16777216. change (2 ^ 16) with 65536.
  change (2 ^ 8) with 256. change (2 ^ 32) with 4294967296 in Hn.
  Z.div_mod_to_equations. lia.
Qed.

Lemma firstn_plus {A} (n m : nat) :
  forall l : list A, firstn (n + m) l = firstn n l ++ firstn m (skipn n l).
Proof.
  induction n as [|n IH]; intros l; [reflexivity |].
  destruct l as [|x l]; cbn.
  - now rewrite firstn_nil.
  - now rewrite IH.
Qed.

(** The payload loop takes exactly [r] bytes when that many are queued,
    whatever the split into reads of at most 2048 bytes, and its fuel
    suffices. *)
Lemma recv_loop_reads (fuel : nat) :
  forall (r : Z) (s : sock) (parts : list bytes),
    0 <= r <= Z.of_nat (length s) -> (Z.to_nat r <= fuel)%nat ->
    exists parts',
      recv_loop fuel r s parts = Some (Ok parts', skipn (Z.to_nat r) s)
      /\ concat parts' = concat parts ++ firstn (Z.to_nat r) s.
Proof.
  induction fuel as [|fuel IH]; intros r s parts Hr Hfuel.
  - assert (r = 0) by lia. subst r. exists parts. cbn.
    split; [reflexivity | now rewrite app_nil_r].
  - cbn [recv_loop]. destruct (r >? 0) eqn:Hpos.
    + apply Z.gtb_lt in Hpos. unfold recv.
      set (n := Z.to_nat (Z.min r 2048)).
      assert (Hn : (1 <= n <= length s)%nat) by (unfold n; lia).
      assert (Hlen : length (firstn n s) = n) by (apply firstn_length_le; lia).
      rewrite Hlen.
      assert (Hne : is_empty (firstn n s) = false).
      { destruct (firstn n s); [cbn in Hlen; lia | reflexivity]. }
      rewrite Hne. cbn [andb].
      destruct (IH (r - Z.of_nat n) (skipn n s) (parts ++ [firstn n s]))
        as (parts' & Hrun & Hcat).
      * rewrite length_skipn. unfold n. lia.
      * unfold n. lia.
      * exists parts'. split.
        -- etransitivity; [exact Hrun |].
           f_equal. f_equal. rewrite skipn_skipn. f_equal. unfold n. lia.
        -- rewrite Hcat, concat_app. cbn [concat].
           rewrite app_nil_r, <- app_assoc. f_equal.
           replace (Z.to_nat r) with (n + Z.to_nat (r - Z.of_nat n))%nat
             by (unfold n; lia).
           symmetry. apply firstn_plus.
    + rewrite Z.gtb_ltb in Hpos. apply Z.ltb_ge in Hpos.
      assert (r = 0) by lia. subst r. exists parts.
      cbn. split; [reflexivity | now rewrite app_nil_r].
Qed.

(** What [read] does with one well-formed segment at the head of the
    stream: whatever the flag byte says, it returns the payload of that
    segment and leaves the rest of the stream unread. *)
Lemma read_from_segment (fuel : nat) (flag : Z) (payload rest previous : bytes) :
  Z.of_nat (length payload) < 2 ^ 32 ->
  payload <> [] ->
  read_from fuel
    (header_bytes {| proto_identifier := 0xde0ec0e1; version_number := 0;
                     message_size := Z.of_nat (length payload);
                     last_segment := flag |} ++ (payload ++ rest)) previous
  = Some (Ok (previous ++ payload), rest).
Proof.
  intros Hlen Hne.
  set (n := Z.of_nat (length payload)) in *.
  assert (Hsize : int_from_bytes (c_uint32 n) = n)
    by (apply int_from_bytes_c_uint32; unfold n; lia).
  assert (Hpos : (n >? 0) = true).
  { apply Z.gtb_lt. unfold n. destruct payload; [congruence | cbn; lia]. }
  destruct (recv_loop_reads (Z.to_nat n) n (payload ++ rest) [])
    as (parts & Hrun & Hcat).
  { rewrite length_app. unfold n. lia. }
  { lia. }
  assert (Hto : Z.to_nat n = length payload) by (unfold n; lia).
  rewrite Hto in Hrun, Hcat.
  rewrite skipn_app, skipn_all, Nat.sub_diag in Hrun. cbn in Hrun.
  rewrite firstn_app, firstn_all, Nat.sub_diag in Hcat. cbn in Hcat.
  rewrite app_nil_r in Hcat.
  unfold header_bytes.
  cbn [proto_identifier version_number message_size last_segment].
  change (c_uint32 3725508833) with magic. unfold c_uint8.
  unfold c_uint32 in *.
  set (b1 := byte_of_Z (n / 2 ^ 24)) in *.
  set (b2 := byte_of_Z (n / 2 ^ 16)) in *.
  set (b3 := byte_of_Z (n / 2 ^ 8)) in *.
  set (b4 := byte_of_Z n) in *.
  set (f := byte_of_Z flag). change (byte_of_Z 0) with x00.
  clearbody b1 b2 b3 b4 f.
  cbn [app magic].
  set (hd := [xde; x0e; xc0; xe1; x00; b1; b2; b3; b4; f]).
  assert (Hrecv :
    recv 10 (xde :: x0e :: xc0 :: xe1 :: x00 :: b1 :: b2 :: b3 :: b4 :: f
             :: payload ++ rest) = (hd, payload ++ rest)) by reflexivity.
  assert (Hproto : bytes_eqb (firstn 4 hd) magic = true) by reflexivity.
  assert (Hver : int_from_bytes (slice 4 5 hd) = 0) by reflexivity.
  assert (Hlen9 : slice 5 9 hd = [b1; b2; b3; b4]) by reflexivity.
  assert (Hlast : is_empty (skipn 9 hd) = false) by reflexivity.
  clearbody hd.
  destruct fuel; cbn [read_from]; rewrite Hrecv, Hproto, Hver, Hlen9, Hlast;
    cbn [negb Z.eqb]; rewrite Hsize, Hpos, Hto, Hrun, Hcat; reflexivity.
Qed.

(** The same for any segment, an empty payload included: [read] answers
    after the first segment of the stream. *)
Lemma read_ignores_last_flag (last : bool) (payload rest : bytes) :
  Z.of_nat (length payload) < 2 ^ 32 ->
  read (segment last payload ++ rest) = Some (Ok payload, rest).
Proof.
  intros Hlen. unfold read, segment. rewrite <- app_assoc.
  destruct payload as [|x payload].
  - destruct last; reflexivity.
  - apply (read_from_segment _ _ (x :: payload) rest []); [exact Hlen | discriminate].
Qed.

(** [read] never runs out of fuel. *)
Lemma recv_loop_total (fuel : nat) :
  forall (r : Z) (s : sock) (parts : list bytes),
    (Z.to_nat r <= fuel)%nat -> recv_loop fuel r s parts <> None.
Proof.
  induction fuel as [|fuel IH]; intros r s parts Hfuel; cbn [recv_loop].
  - destruct (r >? 0) eqn:Hpos; [apply Z.gtb_lt in Hpos; lia | discriminate].
  - destruct (r >? 0) eqn:Hpos; [| discriminate].
    apply Z.gtb_lt in Hpos. unfold recv.
    destruct (firstn (Z.to_nat (Z.min r 2048)) s) as [|x part] eqn:Hpart.
    + cbn [length is_empty andb]. rewrite Z.sub_0_r.
      apply Z.gtb_lt in Hpos. rewrite Hpos. discriminate.
    + cbn [is_empty andb]. apply IH. cbn [length]. lia.
Qed.

(** C3: for every byte string [b] of at most [2 ^ 20] bytes, [send] writes
    one segment whose payload is [b] and whose last-segment flag is set,
    and [read] at the other end of the pipe returns exactly [b], leaving
    the pipe empty. *)
Theorem send_read_roundtrip (b : bytes) :
  Z.of_nat (length b) <= 2 ^ 20 ->
  send b [] = segment true b /\ read (send b []) = Some (Ok b, []).
Proof.
  intros Hlen. split; [reflexivity |].
  change (send b []) with (segment true b).
  rewrite <- (app_nil_r (segment true b)).
  apply read_ignores_last_flag.
  change (2 ^ 20) with 1048576 in Hlen. change (2 ^ 32) with 4294967296. lia.
Qed.

Lemma send_read_roundtrip_witness :
  Z.of_nat (length [x61; x62; x63]) <= 2 ^ 20
  /\ (send [x61; x62; x63] [] = segment true [x61; x62; x63]
      /\ read (send [x61; x62; x63] []) = Some (Ok [x61; x62; x63], [])).
Proof.
  split.
  - cbn. lia.
  - apply send_read_roundtrip. cbn. lia.
Defined.

(** C1, at a failing input: on a stream of two segments with payloads
    ["a"] and ["b"], the first with flag byte 0 and the second with flag
    byte 1, [read] returns ["a"] and leaves the second segment unread; the
    claim has it return ["ab"]. *)
Theorem read_stops_at_first_segment :
  read (segment_run [[x61]; [x62]]) = Some (Ok [x61], segment true [x62]).
Proof. reflexivity. Qed.

(** C7, at the failing input: on a stream that yields no byte, [read]
    raises the protocol mismatch error; the claim has it return [b'']. *)
Theorem read_of_empty_stream_raises :
  read [] = Some (Raise (RuntimeError "Protocol does not match data received"), []).
Proof. reflexivity. Qed.

(** *** More of [read] and [send] *)
Lemma bytes_eqb_eq (a : bytes) : forall b, bytes_eqb a b = true <-> a = b.
Proof.
  induction a as [|x a IH]; intros [|y b]; cbn; try (split; congruence).
  rewrite andb_true_iff, IH. split.
  - intros [Hxy ->]. apply Byte.byte_dec_bl in Hxy. now subst.
  - intros [= -> ->]. split; [now apply Byte.byte_dec_lb | reflexivity].
Qed.

Lemma Z_of_byte_zero (v : byte) : Z_of_byte v = 0 -> v = x00.
Proof. destruct v; vm_compute; congruence. Qed.

(** The payload loop on a stream that ends before the announced size. *)
Lemma recv_loop_short (fuel : nat) :
  forall (r : Z) (s : sock) (parts : list bytes),
    Z.of_nat (length s) < r -> (Z.to_nat r <= fuel)%nat ->
    recv_loop fuel r s parts
    = Some (Raise (RuntimeError "socket connection broken"), []).
Proof.
  induction fuel as [|fuel IH]; intros r s parts Hr Hfuel; [lia |].
  cbn [recv_loop].
  assert (Hpos : (r >? 0) = true) by (apply Z.gtb_lt; lia).
  rewrite Hpos. unfold recv.
  set (n := Z.to_nat (Z.min r 2048)).
  assert (Hn : (1 <= n)%nat) by (unfold n; lia).
  destruct s as [|x s].
  - rewrite firstn_nil, skipn_nil. cbn [length is_empty andb].
    rewrite Z.sub_0_r, Hpos. reflexivity.
  - destruct n as [|n'] eqn:En; [lia |].
    cbn [firstn is_empty andb]. rewrite <- En.
    apply IH.
    + rewrite length_skipn. cbn [skipn length].
      rewrite length_firstn. cbn [length] in Hr. lia.
    + cbn [length]. lia.
Qed.

Lemma firstn_firstn_le {A} (i j : nat) (l : list A) :
  (i <= j)%nat -> firstn i (firstn j l) = firstn i l.
Proof. intros H. rewrite firstn_firstn. f_equal. lia. Qed.

(** X4: a stream whose first four bytes are not the protocol identifier
    (a shorter stream included) makes [read] raise the protocol mismatch
    error, after it has taken up to ten bytes off the stream. *)
Theorem read_rejects_foreign_magic (s : sock) :
  firstn 4 s <> magic ->
  read s
  = Some (Raise (RuntimeError "Protocol does not match data received"),
          skipn 10 s).
Proof.
  intros Hmagic. unfold read. cbn [read_from]. unfold recv.
  change (Z.to_nat 10) with 10%nat.
  rewrite firstn_firstn_le by lia.
  destruct (bytes_eqb (firstn 4 s) magic) eqn:E; [| reflexivity].
  apply bytes_eqb_eq in E. contradiction.
Qed.

Lemma read_rejects_foreign_magic_witness :
  firstn 4 [x47; x45; x54; x20; x2f] <> magic
  /\ read [x47; x45; x54; x20; x2f]
     = Some (Raise (RuntimeError "Protocol does not match data received"), []).
Proof.
  split.
  - discriminate.
  - apply (read_rejects_foreign_magic [x47; x45; x54; x20; x2f]). discriminate.
Defined.

(** X5: a header whose version byte is not 0 makes [read] raise the
    version error; the ten bytes of the header are consumed, the payload
    is left in the stream. *)
Theorem read_rejects_other_versions (version : byte) (rest : bytes) :
  version <> x00 ->
  read (magic ++ version :: rest)
  = Some (Raise (RuntimeError "Protocol version not supported"), skipn 5 rest).
Proof.
  intros Hv. unfold read. cbn [read_from]. unfold recv.
  change (Z.to_nat 10) with 10%nat.
  rewrite firstn_firstn_le by lia.
  assert (Hm : bytes_eqb (firstn 4 (magic ++ version :: rest)) magic = true)
    by reflexivity.
  rewrite Hm. cbn [negb].
  assert (Hver : int_from_bytes (slice 4 5 (firstn 10 (magic ++ version :: rest)))
                 = Z_of_byte version) by reflexivity.
  rewrite Hver.
  destruct (Z_of_byte version =? 0) eqn:E.
  - apply Z.eqb_eq, Z_of_byte_zero in E. contradiction.
  - reflexivity.
Qed.

Lemma read_rejects_other_versions_witness :
  x01 <> x00
  /\ read (magic ++ x01 :: [x00; x00; x00; x01; x01; x61])
     = Some (Raise (RuntimeError "Protocol version not supported"), [x61]).
Proof.
  split.
  - discriminate.
  - apply (read_rejects_other_versions x01 [x00; x00; x00; x01; x01; x61]).
    discriminate.
Defined.

(** [read] on a stream that starts with a well-formed header announcing
    [size > 0] bytes: the outcome is that of the payload loop. *)
Lemma read_from_header (fuel : nat) (flag size : Z) (rest previous : bytes) :
  0 < size < 2 ^ 32 ->
  read_from fuel
    (header_bytes {| proto_identifier := 0xde0ec0e1; version_number := 0;
                     message_size := size; last_segment := flag |} ++ rest)
    previous
  = match recv_loop (Z.to_nat size) size rest [] with
    | None => None
    | Some (Raise e, s) => Some (Raise e, s)
    | Some (Ok parts, s) => Some (Ok (previous ++ concat parts), s)
    end.
Proof.
  intros Hsize.
  assert (Hint : int_from_bytes (c_uint32 size) = size)
    by (apply int_from_bytes_c_uint32; lia).
  assert (Hpos : (size >? 0) = true) by (apply Z.gtb_lt; lia).
  unfold header_bytes.
  cbn [proto_identifier version_number message_size last_segment].
  change (c_uint32 3725508833) with magic. unfold c_uint8.
  unfold c_uint32 in *.
  set (b1 := byte_of_Z (size / 2 ^ 24)) in *.
  set (b2 := byte_of_Z (size / 2 ^ 16)) in *.
  set (b3 := byte_of_Z (size / 2 ^ 8)) in *.
  set (b4 := byte_of_Z size) in *.
  set (f := byte_of_Z flag). change (byte_of_Z 0) with x00.
  clearbody b1 b2 b3 b4 f.
  cbn [app magic].
  set (hd := [xde; x0e; xc0; xe1; x00; b1; b2; b3; b4; f]).
  assert (Hrecv :
    recv 10 (xde :: x0e :: xc0 :: xe1 :: x00 :: b1 :: b2 :: b3 :: b4 :: f
             :: rest) = (hd, rest)) by reflexivity.
  assert (Hproto : bytes_eqb (firstn 4 hd) magic = true) by reflexivity.
  assert (Hver : int_from_bytes (slice 4 5 hd) = 0) by reflexivity.
  assert (Hlen9 : slice 5 9 hd = [b1; b2; b3; b4]) by reflexivity.
  assert (Hlast : is_empty (skipn 9 hd) = false) by reflexivity.
  clearbody hd.
  destruct fuel; cbn [read_from]; rewrite Hrecv, Hproto, Hver, Hlen9, Hlast;
    cbn [negb Z.eqb]; rewrite Hint, Hpos;
    destruct (recv_loop (Z.to_nat size) size rest []) as [[[parts|e] s]|];
    reflexivity.
Qed.

(** X3: when the stream ends before the number of bytes the header
    announces, [read] raises "socket connection broken" and has drained
    the stream. *)
Theorem read_truncated_payload_raises (flag size : Z) (body : bytes) :
  Z.of_nat (length body) < size < 2 ^ 32 ->
  read
    (header_bytes {| proto_identifier := 0xde0ec0e1; version_number := 0;
                     message_size := size; last_segment := flag |} ++ body)
  = Some (Raise (RuntimeError "socket connection broken"), []).
Proof.
  intros Hsize. unfold read. rewrite read_from_header by lia.
  rewrite recv_loop_short by lia. reflexivity.
Qed.

Lemma read_truncated_payload_raises_witness :
  Z.of_nat (length [x61; x62]) < 3 < 2 ^ 32
  /\ read
       (header_bytes {| proto_identifier := 0xde0ec0e1; version_number := 0;
                        message_size := 3; last_segment := 1 |} ++ [x61; x62])
     = Some (Raise (RuntimeError "socket connection broken"), []).
Proof.
  split.
  - cbn. lia.
  - apply (read_truncated_payload_raises 1 3 [x61; x62]). cbn. lia.
Defined.



Lemma send_appends_segment (b : bytes) (s : sock) :
  send b s = s ++ segment true b.
Proof. reflexivity. Qed.

Lemma send_each_segments (messages : list bytes) :
  forall s, send_each messages s = s ++ concat (map (segment true) messages).
Proof.
  induction messages as [|b messages IH]; intros s; cbn [send_each fold_left map concat].
  - now rewrite app_nil_r.
  - fold (send_each messages (send b s)).
    rewrite IH, send_appends_segment, <- app_assoc. reflexivity.
Qed.

Lemma read_each_segments (messages : list bytes) (rest : bytes) :
  Forall (fun b => Z.of_nat (length b) < 2 ^ 32) messages ->
  read_each (length messages) (concat (map (segment true) messages) ++ rest)
  = Some (Ok messages, rest).
Proof.
  induction 1 as [|b messages Hb _ IH]; [reflexivity |].
  cbn [length map concat read_each]. rewrite <- app_assoc.
  rewrite read_ignores_last_flag by exact Hb. rewrite IH. reflexivity.
Qed.

(** X1: messages of less than [2 ^ 32] bytes written by successive calls
    of [send] are returned by as many calls of [read], one message per
    call, in the order they were sent, and the stream is empty after the
    last one. *)
Theorem back_to_back_messages_are_read_in_order (messages : list bytes) :
  Forall (fun b => Z.of_nat (length b) < 2 ^ 32) messages ->
  read_each (length messages) (send_each messages []) = Some (Ok messages, []).
Proof.
  intros Hsmall. rewrite send_each_segments. cbn [app].
  rewrite <- (app_nil_r (concat _)). now apply read_each_segments.
Qed.

Lemma back_to_back_messages_are_read_in_order_witness :
  Forall (fun b => Z.of_nat (length b) < 2 ^ 32) [[x61]; []; [x62; x63]]
  /\ read_each 3 (send_each [[x61]; []; [x62; x63]] [])
     = Some (Ok [[x61]; []; [x62; x63]], []).
Proof.
  split.
  - repeat constructor; cbn; lia.
  - apply (back_to_back_messages_are_read_in_order [[x61]; []; [x62; x63]]).
    repeat constructor; cbn; lia.
Defined.

End bytebundle_facts.

(** ** Timestamps on the wire *)

Module datetime_facts.
Import datetime.

Lemma small_cases (k : Z) :
  0 <= k < 10 ->
  k = 0 \/ k = 1 \/ k = 2 \/ k = 3 \/ k = 4 \/ k = 5 \/ k = 6 \/ k = 7
  \/ k = 8 \/ k = 9.
Proof. lia. Qed.

Ltac each_digit k H :=
  destruct (small_cases k H) as [-> | [-> | [-> | [-> | [-> | [-> | [-> | [-> | [-> | ->]]]]]]]]].

Lemma digit_value_digit (k : Z) : 0 <= k < 10 -> digit_value (digit k) = Some k.
Proof. intros H. each_digit k H; reflexivity. Qed.

(** A digit is none of the literals of the format. *)
Lemma digit_not_literal (k : Z) (c : ascii) :
  0 <= k < 10 -> literal c -> Ascii.eqb (digit k) c = false.
Proof.
  intros H [-> | [-> | [-> | [-> | ->]]]]; each_digit k H; reflexivity.
Qed.

Lemma length_append (a b : string) :
  String.length (a ++ b) = (String.length a + String.length b)%nat.
Proof. induction a as [|c a IH]; cbn; [reflexivity | now rewrite IH]. Qed.

Lemma length_zpad (w : nat) : forall n, String.length (zpad w n) = w.
Proof.
  induction w as [|w IH]; intros n; [reflexivity |].
  cbn [zpad]. rewrite length_append, IH. cbn. lia.
Qed.

Lemma digits_from_app (a b : string) :
  forall acc,
    digits_from acc (a ++ b)
    = match digits_from acc a with
      | Some v => digits_from v b
      | None => None
      end.
Proof.
  induction a as [|c a IH]; intros acc; [reflexivity |].
  cbn [append digits_from]. destruct (digit_value c); [apply IH | reflexivity].
Qed.

Lemma digits_zpad (w : nat) :
  forall n, 0 <= n -> digits (zpad w n) = Some (n mod 10 ^ Z.of_nat w).
Proof.
  unfold digits. induction w as [|w IH]; intros n Hn.
  - cbn. now rewrite Z.mod_1_r.
  - cbn [zpad]. rewrite digits_from_app, IH by (apply Z.div_pos; lia).
    cbn [digits_from]. rewrite digit_value_digit by (apply Z.mod_pos_bound; lia).
    f_equal. rewrite Nat2Z.inj_succ, Z.pow_succ_r by lia.
    assert (Hp : 0 < 10 ^ Z.of_nat w) by (apply Z.pow_pos_nonneg; lia).
    rewrite Z.rem_mul_r by lia. lia.
Qed.

Lemma field_zpad (w lo_len hi_len : nat) (lo hi n : Z) :
  (lo_len <= w <= hi_len)%nat -> 0 <= n < 10 ^ Z.of_nat w -> lo <= n <= hi ->
  field lo_len hi_len lo hi (zpad w n) = Some n.
Proof.
  intros Hw Hn Hr. unfold field. rewrite length_zpad.
  replace (lo_len <=? w)%nat with true by (symmetry; apply Nat.leb_le; lia).
  replace (w <=? hi_len)%nat with true by (symmetry; apply Nat.leb_le; lia).
  cbn [andb]. rewrite digits_zpad, Z.mod_small by lia.
  replace (lo <=? n) with true by (symmetry; apply Z.leb_le; lia).
  replace (n <=? hi) with true by (symmetry; apply Z.leb_le; lia).
  reflexivity.
Qed.

(** No literal occurs in a padded number. *)
Lemma free_of_app (sep : ascii) (a b : string) :
  free_of sep a -> free_of sep b -> free_of sep (a ++ b).
Proof. induction a as [|c a IH]; cbn; intuition. Qed.

Lemma free_of_zpad (sep : ascii) (w : nat) :
  literal sep -> forall n, free_of sep (zpad w n).
Proof.
  intros Hsep. induction w as [|w IH]; intros n; cbn [zpad]; [exact I |].
  apply free_of_app; [apply IH |]. cbn. split; [| exact I].
  apply digit_not_literal; [apply Z.mod_pos_bound; lia | exact Hsep].
Qed.

Lemma split_at_app (sep : ascii) (a b : string) :
  free_of sep a -> split_at sep (a ++ String sep b) = Some (a, b).
Proof.
  induction a as [|c a IH]; cbn [append split_at free_of].
  - intros _. now rewrite Ascii.eqb_refl.
  - intros [Hc Ha]. now rewrite Hc, IH.
Qed.

Lemma split_at_free (sep : ascii) (s : string) :
  free_of sep s -> split_at sep s = None.
Proof.
  induction s as [|c s IH]; cbn [split_at free_of]; [reflexivity |].
  intros [Hc Hs]. now rewrite Hc, IH.
Qed.
Lemma valid_ranges (d : datetime.datetime) :
  valid d = true ->
  1 <= year d <= 9999 /\ 1 <= month d <= 12 /\ 1 <= day d <= 31
  /\ 0 <= hour d <= 23 /\ 0 <= minute d <= 59 /\ 0 <= second d <= 59
  /\ 0 <= microsecond d <= 999999.
Proof.
  unfold valid. rewrite !andb_true_iff, !Z.leb_le.
  intros H. assert (days_in_month (year d) (month d) <= 31).
  { unfold days_in_month.
    repeat match goal with |- context [if ?b then _ else _] => destruct b end; lia. }
  lia.
Qed.

Lemma field_d_zpad (n : Z) : 1 <= n <= 31 -> field_d (zpad 2 n) = Some n.
Proof.
  intros Hn. assert (Hf : field 1 2 1 31 (zpad 2 n) = Some n)
    by (apply field_zpad; [lia | change (10 ^ Z.of_nat 2) with 100; lia | lia]).
  revert Hf. cbn [zpad append].
  assert (Hk : 0 <= n / 10 mod 10 < 10) by (apply Z.mod_pos_bound; lia).
  each_digit (n / 10 mod 10) Hk; cbn [digit]; intros Hf; exact Hf.
Qed.

Lemma field_f_zpad (n : Z) : 0 <= n <= 999999 -> field_f (zpad 6 n) = Some n.
Proof.
  intros Hn. unfold field_f.
  rewrite field_zpad by (try lia; change (10 ^ Z.of_nat 6) with 1000000; lia).
  rewrite length_zpad. cbn. f_equal. lia.
Qed.

Ltac split_next :=
  rewrite split_at_app by (apply free_of_zpad; unfold literal; tauto);
  cbn [expect bind fst snd].

(** A timestamp with a fraction survives the wire. *)
Lemma strptime_isoformat (d : datetime.datetime) :
  valid d = true -> microsecond d <> 0 -> strptime (isoformat d) = Ok d.
Proof.
  intros Hv Hus. pose proof (valid_ranges d Hv) as Hr.
  unfold isoformat, strptime.
  apply Z.eqb_neq in Hus. rewrite Hus. cbn [append].
  repeat split_next.
  rewrite !field_zpad, field_d_zpad, field_f_zpad
    by (try lia; try (change (10 ^ Z.of_nat 2) with 100; lia);
        change (10 ^ Z.of_nat 4) with 10000; lia).
  cbn [expect bind]. destruct d; cbn in *. rewrite Hv. reflexivity.
Qed.

(** A timestamp on a whole second is written without a fraction, and
    [strptime] rejects it. *)
Lemma strptime_isoformat_whole_second (d : datetime.datetime) :
  microsecond d = 0 -> strptime (isoformat d) = Raise mismatch.
Proof.
  intros Hus. unfold isoformat, strptime. rewrite Hus. cbn [Z.eqb append].
  repeat split_next.
  rewrite split_at_free; [reflexivity |].
  apply free_of_app; [apply free_of_zpad; unfold literal; tauto | exact I].
Qed.

End datetime_facts.

(** ** The wire messages *)

Module structures_facts.
Import structures samples.

(** A user message whose timestamp carries a fraction is read back as it
    was written. *)
Lemma UserMessage_roundtrip (m : UserMessage) :
  carries_fraction m = true ->
  UserMessage_deserialize (UserMessage_serialize m) = Ok m.
Proof.
  unfold carries_fraction. rewrite andb_true_iff, negb_true_iff, Z.eqb_neq.
  intros [Hv Hus].
  unfold UserMessage_deserialize, UserMessage_serialize, DepecheMessage_serialize.
  cbn [app py.subscript py.dict_get String.eqb Ascii.eqb Bool.eqb bind].
  rewrite datetime_facts.strptime_isoformat by assumption.
  cbn [bind]. destruct m; reflexivity.
Qed.

(** A user message sent on a whole second cannot be read back. *)
Lemma UserMessage_whole_second (m : UserMessage) :
  datetime.microsecond (send_time m) = 0 ->
  UserMessage_deserialize (UserMessage_serialize m) = Raise datetime.mismatch.
Proof.
  intros Hus.
  unfold UserMessage_deserialize, UserMessage_serialize, DepecheMessage_serialize.
  cbn [app py.subscript py.dict_get String.eqb Ascii.eqb Bool.eqb bind].
  rewrite datetime_facts.strptime_isoformat_whole_second by assumption.
  reflexivity.
Qed.

Lemma container_roundtrip_user (m : UserMessage) :
  carries_fraction m = true ->
  MessageContainer_deserialize (MessageContainer_serialize [user_message m])
  = Ok [user_message m].
Proof.
  intros Hm. unfold MessageContainer_deserialize, MessageContainer_serialize.
  cbn [map py.iter bind deserialize_all serialize].
  change (py.subscript (UserMessage_serialize m) "type") with (Ok (JStr "user_message")).
  cbn [bind class_mapping String.eqb Ascii.eqb Bool.eqb].
  rewrite UserMessage_roundtrip by assumption. reflexivity.
Qed.

Lemma container_roundtrip_no_more_data (ref : string) :
  MessageContainer_deserialize (MessageContainer_serialize [NoMoreData ref])
  = Ok [NoMoreData ref].
Proof. reflexivity. Qed.

Lemma container_whole_second (m : UserMessage) :
  datetime.microsecond (send_time m) = 0 ->
  MessageContainer_deserialize (MessageContainer_serialize [user_message m])
  = Raise datetime.mismatch.
Proof.
  intros Hm. unfold MessageContainer_deserialize, MessageContainer_serialize.
  cbn [map py.iter bind deserialize_all serialize].
  change (py.subscript (UserMessage_serialize m) "type") with (Ok (JStr "user_message")).
  cbn [bind class_mapping String.eqb Ascii.eqb Bool.eqb].
  rewrite UserMessage_whole_second by assumption. reflexivity.
Qed.

(** C10, at a failing input: a user message sent at 2020-01-01 00:00:00
    sharp goes on the wire with the [send_time] ["2020-01-01T00:00:00"],
    without microseconds, and deserializing that raises [ValueError]; the
    claim has the round trip succeed for every timestamp. *)
Theorem whole_second_message_is_not_read_back :
  py.subscript (UserMessage_serialize message_on_whole_second) "send_time"
  = Ok (JStr "2020-01-01T00:00:00")
  /\ UserMessage_deserialize (UserMessage_serialize message_on_whole_second)
     = Raise (ValueError "time data does not match format").
Proof. split; reflexivity. Qed.

(** X6: for a user message with a valid [send_time], deserializing what
    [serialize] wrote gives the message back exactly when the timestamp
    has a non-zero microsecond field. *)
Theorem UserMessage_roundtrip_iff (m : UserMessage) :
  datetime.valid (send_time m) = true ->
  (UserMessage_deserialize (UserMessage_serialize m) = Ok m
   <-> datetime.microsecond (send_time m) <> 0).
Proof.
  intros Hv. split.
  - intros Hok Hus. rewrite UserMessage_whole_second in Hok by exact Hus.
    discriminate.
  - intros Hus. apply UserMessage_roundtrip. unfold carries_fraction.
    rewrite Hv. cbn [andb]. apply negb_true_iff, Z.eqb_neq, Hus.
Qed.

Lemma UserMessage_roundtrip_iff_witness :
  datetime.valid (send_time message_with_fraction) = true
  /\ (UserMessage_deserialize (UserMessage_serialize message_with_fraction)
      = Ok message_with_fraction
      <-> datetime.microsecond (send_time message_with_fraction) <> 0).
Proof.
  split.
  - reflexivity.
  - apply (UserMessage_roundtrip_iff message_with_fraction). reflexivity.
Defined.

Lemma element_roundtrip (m : DepecheMessage) :
  survives_wire m = true ->
  (t <- py.subscript (serialize m) "type" ;;
   msg_class <- class_mapping t ;;
   msg_class (serialize m)) = Ok m.
Proof.
  destruct m as [u | t r]; cbn [survives_wire serialize]; intros Hm.
  - change (py.subscript (UserMessage_serialize u) "type")
      with (Ok (JStr "user_message")).
    cbn [bind class_mapping String.eqb Ascii.eqb Bool.eqb].
    rewrite UserMessage_roundtrip by assumption. reflexivity.
  - destruct t as [| | |s| |]; try discriminate. cbn [py.eq_str] in Hm.
    apply orb_true_iff in Hm. destruct Hm as [Hm | Hm];
      apply String.eqb_eq in Hm; subst s; reflexivity.
Qed.

Lemma deserialize_all_app (ms : list DepecheMessage) (rest : list json) :
  forallb survives_wire ms = true ->
  deserialize_all (map serialize ms ++ rest)
  = (tail <- deserialize_all rest ;; Ok (ms ++ tail)).
Proof.
  induction ms as [|m ms IH]; cbn [forallb map app deserialize_all]; intros H.
  - destruct (deserialize_all rest); reflexivity.
  - apply andb_true_iff in H. destruct H as [Hm Hms].
    pose proof (element_roundtrip m Hm) as Hel.
    destruct (py.subscript (serialize m) "type") as [t|e]; [| discriminate].
    cbn [bind] in Hel |- *.
    destruct (class_mapping t) as [c|e]; [| discriminate].
    cbn [bind] in Hel |- *. rewrite Hel. cbn [bind].
    rewrite IH by assumption.
    destruct (deserialize_all rest); reflexivity.
Qed.

(** X7: a container of user messages whose timestamps carry a fraction
    and of flow control messages, in any number and order, is read back
    from its serialized form as the same list of messages. *)
Theorem container_roundtrip (messages : list DepecheMessage) :
  forallb survives_wire messages = true ->
  MessageContainer_deserialize (MessageContainer_serialize messages)
  = Ok messages.
Proof.
  intros H. unfold MessageContainer_deserialize, MessageContainer_serialize.
  cbn [py.iter bind]. rewrite <- (app_nil_r (map serialize messages)).
  rewrite deserialize_all_app by assumption.
  cbn [deserialize_all bind]. now rewrite app_nil_r.
Qed.

Lemma container_roundtrip_witness :
  forallb survives_wire
    [user_message message_with_fraction; StopSending "0b5e";
     user_message message_with_fraction; NoMoreData "0b5f"] = true
  /\ MessageContainer_deserialize
       (MessageContainer_serialize
          [user_message message_with_fraction; StopSending "0b5e";
           user_message message_with_fraction; NoMoreData "0b5f"])
     = Ok [user_message message_with_fraction; StopSending "0b5e";
           user_message message_with_fraction; NoMoreData "0b5f"].
Proof.
  split.
  - reflexivity.
  - apply (container_roundtrip
             [user_message message_with_fraction; StopSending "0b5e";
              user_message message_with_fraction; NoMoreData "0b5f"]).
    reflexivity.
Defined.

(** X8: a container that holds an object whose [type] is not a key of
    [class_mapping] is not deserialized at all: [KeyError] is raised, also
    when well-formed messages stand before that object. *)
Theorem unregistered_type_fails_whole_container (messages : list DepecheMessage)
    (kind : string) (d : list (string * json)) (rest : list json) :
  forallb survives_wire messages = true ->
  py.dict_get "type" d = Some (JStr kind) ->
  registered kind = false ->
  MessageContainer_deserialize
    (JArr (map serialize messages ++ JObj d :: rest))
  = Raise (KeyError kind).
Proof.
  intros Hms Hd Hk. unfold MessageContainer_deserialize. cbn [py.iter bind].
  rewrite deserialize_all_app by assumption.
  cbn [deserialize_all py.subscript]. rewrite Hd. cbn [bind class_mapping].
  unfold registered in Hk. apply orb_false_iff in Hk. destruct Hk as [Hk H3].
  apply orb_false_iff in Hk. destruct Hk as [H1 H2].
  rewrite H1, H2, H3. reflexivity.
Qed.

Lemma unregistered_type_fails_whole_container_witness :
  forallb survives_wire [user_message message_with_fraction] = true
  /\ py.dict_get "type" [("type"%string, JStr "ping")] = Some (JStr "ping")
  /\ registered "ping" = false
  /\ MessageContainer_deserialize
       (JArr (map serialize [user_message message_with_fraction]
              ++ JObj [("type"%string, JStr "ping")] :: []))
     = Raise (KeyError "ping").
Proof.
  split; [reflexivity |]. split; [reflexivity |]. split; [reflexivity |].
  apply (unregistered_type_fails_whole_container
           [user_message message_with_fraction] "ping"
           [("type"%string, JStr "ping")] []); reflexivity.
Defined.

Lemma UserMessage_serialize_into_fresh (u : UserMessage) (d : list (string * json)) :
  user_dict d -> JObj (UserMessage_serialize_into u d) = UserMessage_serialize u.
Proof. intros [-> | (a & b & c & t & r & ->)]; reflexivity. Qed.

Lemma DepecheMessage_serialize_into_fresh (t r : json) (d : list (string * json)) :
  flow_dict d ->
  JObj (DepecheMessage_serialize_into t r d) = DepecheMessage_serialize t r [].
Proof. intros [-> | (t' & r' & ->)]; reflexivity. Qed.

Lemma serialize_in_turn_fresh (messages : list DepecheMessage) :
  forall d_user d_flow,
    user_dict d_user -> flow_dict d_flow ->
    serialize_in_turn messages d_user d_flow = map serialize messages.
Proof.
  induction messages as [|[u | t r] messages IH]; intros d_user d_flow Hu Hf;
    cbn [serialize_in_turn map serialize]; [reflexivity | |].
  - rewrite UserMessage_serialize_into_fresh by assumption. f_equal.
    apply IH; [| assumption]. right.
    destruct Hu as [-> | (a & b & c & t & r & ->)]; cbn; eauto 10.
  - rewrite DepecheMessage_serialize_into_fresh by assumption. f_equal.
    apply IH; [assumption |]. right.
    destruct Hf as [-> | (t' & r' & ->)]; cbn; eauto.
Qed.

(** X9: the [serialize] methods write into a default argument [d={}]
    that all their calls share; all the same, each message of a sequence
    is serialized to the document it would get from a fresh dict: no key
    and no value of an earlier message shows up in a later one, and the
    order of the keys stays. *)
Theorem shared_default_dict_does_not_leak (messages : list DepecheMessage) :
  serialize_in_turn messages [] [] = map serialize messages.
Proof. apply serialize_in_turn_fresh; now left. Qed.

End structures_facts.

(** ** Announcements, the port search and the exchange loop *)

Module naive_facts.
Import structures naive samples.

(** An announcement of the expected type passes the validation. *)
Lemma own_announcement_validates (server_type : string) (port : Z)
    (callsign : option string) (address : string) :
  0 < port ->
  _read_announcement_from_socket
    (datagram (_send_server_announcment server_type port callsign) address)
    server_type
  = Ok (address, JInt port,
        match callsign with Some c => JStr c | None => JNull end).
Proof.
  intros Hport. unfold _read_announcement_from_socket, _send_server_announcment.
  cbn [decode bind]. unfold _validate_announcement.
  cbn [json_loads bind py.subscript py.dict_get String.eqb Ascii.eqb Bool.eqb
       py.eq_str py.eq_int Z.eqb negb py.gt_0].
  rewrite String.eqb_refl. cbn [negb].
  replace (port >? 0) with true by (symmetry; apply Z.gtb_lt; lia).
  reflexivity.
Qed.

(** C5, on the node's own announcements: whatever its callsign, a node
    that hears its own exchange announcement calls [on_announcement], and
    a node whose alias is not its callsign dials its own rendezvous
    announcement; the claim has both dropped. *)
Theorem own_announcement_is_not_dropped (self : TcpUdpAdapter)
    (info : RendezvousInfo) (ip : string) (port timeout : Z) :
  0 < port ->
  alias info <> _callsign self ->
  calls (start_register_announcements self returns None 0
           [hears (_send_server_announcment "exchange" port
                     (Some (_callsign self))) ip])
  = [(ip, JInt port)]
  /\ calls (rendezvous_listener self info timeout returns 0
              [hears (_send_server_announcment "rendezvous" port
                        (Some (_callsign self))) ip])
     = [(ip, JInt port)].
Proof.
  intros Hport Halias. split.
  - unfold start_register_announcements, hears.
    cbn [_ExchangeAnnouncementListener_listen orb stop_requested arrival].
    rewrite own_announcement_validates by assumption. reflexivity.
  - unfold rendezvous_listener, hears.
    cbn [_RendezvousAnnouncementListener_listen orb stop_requested arrival].
    rewrite own_announcement_validates by assumption.
    cbn [bind py.eq_str].
    replace (String.eqb (_callsign self) (alias info)) with false
      by (symmetry; apply String.eqb_neq; congruence).
    reflexivity.
Qed.

Lemma own_announcement_is_not_dropped_witness :
  0 < 27272
  /\ alias info <> _callsign node
  /\ calls (start_register_announcements node returns None 0
              [hears (_send_server_announcment "exchange" 27272
                        (Some (_callsign node))) "10.0.0.7"])
     = [("10.0.0.7"%string, JInt 27272)]
  /\ calls (rendezvous_listener node info 30 returns 0
              [hears (_send_server_announcment "rendezvous" 27272
                        (Some (_callsign node))) "10.0.0.7"])
     = [("10.0.0.7"%string, JInt 27272)].
Proof.
  assert (H1 : 0 < 27272) by lia.
  assert (H2 : alias info <> _callsign node) by discriminate.
  split; [exact H1 |]. split; [exact H2 |].
  exact (own_announcement_is_not_dropped node info "10.0.0.7" 27272 30 H1 H2).
Defined.

(** A datagram the validation answers [False] to ends the listener. *)
Lemma rejected_announcement_raises (v : json) (address : string)
    (own : option string) (timeout : option Z) (rest : list tick) :
  _validate_announcement (document v) "exchange" = Ok false ->
  final (_ExchangeAnnouncementListener_listen own timeout returns 0 false
           (hears (utf8 (document v)) address :: rest) [])
  = raised (UnboundLocalError "broadcast").
Proof.
  intros Hv. unfold hears.
  cbn [_ExchangeAnnouncementListener_listen orb stop_requested arrival
       _read_announcement_from_socket decode bind].
  rewrite Hv. reflexivity.
Qed.

(** Bytes that are no UTF-8 text, and text that is no JSON document, are
    survived: both errors are [ValueError]s. *)
Lemma garbled_datagram_is_survived (address : string) (rest : list tick) :
  start_register_announcements node returns None 0
    (hears undecodable address :: rest)
  = start_register_announcements node returns None 0 rest
  /\ start_register_announcements node returns None 0
       (hears (utf8 malformed) address :: rest)
     = start_register_announcements node returns None 0 rest.
Proof. split; reflexivity. Qed.

(** C6, at three failing inputs: an announcement with a foreign protocol
    name, a JSON object without the field [protocol], and an announcement
    whose port is a string each end the exchange listener with an exception
    no [except] clause catches, so that the datagrams after them are never
    read; the claim has every such datagram discarded and the listener
    kept alive. *)
Theorem malformed_announcement_kills_listener :
  start_register_announcements node returns (Some 30) 0
    [hears foreign_protocol "10.0.0.7"; quiet]
  = {| calls := []; final := raised (UnboundLocalError "broadcast") |}
  /\ start_register_announcements node returns (Some 30) 0
       [hears no_protocol "10.0.0.7"; quiet]
     = {| calls := []; final := raised (KeyError "protocol") |}
  /\ start_register_announcements node returns (Some 30) 0
       [hears port_as_text "10.0.0.7"; quiet]
     = {| calls := []; final := raised TypeError |}.
Proof. repeat split; reflexivity. Qed.

Lemma port_loop_all_busy (can_bind : Z -> bool) (base : Z) :
  (forall p, can_bind p = false) ->
  _RendezvousServer_run base can_bind
  = Some (FAIL, map (fun i => base + i * (i + 1) / 2) [0; 1; 2; 3; 4; 5; 6; 7; 8; 9]).
Proof.
  intros Hbusy. unfold _RendezvousServer_run.
  cbn [rendezvous_port_loop Z.ltb Z.compare Pos.compare Pos.compare_cont
       Z.add Pos.add Pos.succ Pos.add_carry app].
  rewrite !Hbusy.
  change (map (fun i => base + i * (i + 1) / 2) [0; 1; 2; 3; 4; 5; 6; 7; 8; 9])
    with [base + 0; base + 1; base + 3; base + 6; base + 10; base + 15;
          base + 21; base + 28; base + 36; base + 45].
  do 2 f_equal. repeat (apply f_equal2; [lia |]). reflexivity.
Qed.

(** C8, at a failing input: with the base port 27273 and 27275 the only
    free port, the rendezvous server tries 27273, 27274, 27276, 27279, ...
    (the offsets add up), never 27275, and reports failure; the port
    search of the exchange server tries 27273, 27274, 27275 and binds.
    The claim has the rendezvous server probe consecutive ports. *)
Theorem rendezvous_port_search_skips_ports :
  _RendezvousServer_run 27273 (fun p => p =? 27275)
  = Some (FAIL, [27273; 27274; 27276; 27279; 27283; 27288; 27294; 27301;
                 27309; 27318])
  /\ consecutive_ports 27273 10
     = [27273; 27274; 27275; 27276; 27277; 27278; 27279; 27280; 27281; 27282]
  /\ _create_socket_server 10 (fun p => p =? 27275) 27273 10 0 []
     = Some (RUNNING 27275, [27273; 27274; 27275]).
Proof. repeat split; reflexivity. Qed.

(** *** The exchange loop *)

Import structures_facts.

Lemma place_swap (side : bool) (p q : endpoint) (to_q to_p : list json) :
  place (negb side) q p to_p to_q = place side p q to_q to_p.
Proof. destruct side; reflexivity. Qed.

(** When only [q] can move, the exchange goes where [q] goes. *)
Lemma active_moves (side : bool) (p q q' : endpoint)
    (to_q to_p to_q' out : list json) (z : exchange) :
  move q to_q (gone p) = Some (q', to_q', out) ->
  move p to_p (gone q) = None ->
  runs_to (place side p q' to_q' (to_p ++ out)) z ->
  runs_to (place side p q to_q to_p) z.
Proof.
  intros Hq Hp Hrun. destruct side; cbn [place] in *.
  - eapply runs_step; [| | exact Hrun].
    + exact (acceptor_moves
               {| connector := p; acceptor := q; to_acceptor := to_q;
                  to_connector := to_p |} q' to_q' out Hq).
    + intros y Hy. inversion Hy; subst; cbn in *; congruence.
  - eapply runs_step; [| | exact Hrun].
    + exact (connector_moves
               {| connector := q; acceptor := p; to_acceptor := to_p;
                  to_connector := to_q |} q' to_q' out Hq).
    + intros y Hy. inversion Hy; subst; cbn in *; congruence.
Qed.

Lemma at_rest (side : bool) (p q : endpoint) (to_q to_p : list json) :
  move p to_p (gone q) = None ->
  move q to_q (gone p) = None ->
  runs_to (place side p q to_q to_p) (place side p q to_q to_p).
Proof.
  intros Hp Hq. apply runs_rest. intros y Hy.
  destruct side; inversion Hy; subst; cbn in *; congruence.
Qed.

Lemma receive_phase_user (me : endpoint) (m : UserMessage) :
  carries_fraction m = true ->
  receive_phase me (MessageContainer_serialize [user_message m])
  = {| at_phase := sending;
       keep_sending := keep_sending me;
       keep_receiving := keep_receiving me;
       messages_to_send := messages_to_send me;
       uuid4 := uuid4 me;
       handed := handed me ++ [user_message m];
       sent := sent me;
       received := received me ++ [[user_message m]] |}.
Proof.
  intros Hm. unfold receive_phase, _receive_messages.
  rewrite container_roundtrip_user by exact Hm. reflexivity.
Qed.

Lemma receive_phase_no_more_data (me : endpoint) (ref : string) :
  receive_phase me (MessageContainer_serialize [NoMoreData ref])
  = {| at_phase := sending;
       keep_sending := keep_sending me;
       keep_receiving := false;
       messages_to_send := messages_to_send me;
       uuid4 := uuid4 me;
       handed := handed me;
       sent := sent me;
       received := received me ++ [[NoMoreData ref]] |}.
Proof. reflexivity. Qed.

Lemma count_app_no_more_data (log : list (list DepecheMessage)) (ref : string) :
  (1 <= no_more_data_count (log ++ [[NoMoreData ref]]))%nat.
Proof.
  unfold no_more_data_count. rewrite filter_app, length_app. cbn. lia.
Qed.

Lemma count_app_mono (log : list (list DepecheMessage)) (c : list DepecheMessage) :
  (no_more_data_count log <= no_more_data_count (log ++ [c]))%nat.
Proof.
  unfold no_more_data_count. rewrite filter_app, length_app. lia.
Qed.

Arguments MessageContainer_serialize : simpl never.

(** [q] reads what [p] has written and writes its answer, while [p]
    waits or has finished. *)
Lemma answer (side : bool) (p q q1 q2 : endpoint) (payload : json)
    (c : list DepecheMessage) (z : exchange) :
  at_phase q = receiving ->
  at_phase p = receiving \/ at_phase p = finished ->
  receive_phase q payload = q1 ->
  at_phase q1 = sending ->
  send_phase q1 = (q2, c) ->
  runs_to (place side p q2 [] [MessageContainer_serialize c]) z ->
  runs_to (place side p q [payload] []) z.
Proof.
  intros Hq Hp Hrecv Hq1 Hsend Hrun.
  assert (Hwait : forall e, gone e = false -> move p [] (gone e) = None).
  { intros e He. rewrite He. unfold move. destruct Hp as [-> | ->]; reflexivity. }
  eapply active_moves with (q' := q1) (to_q' := []) (out := []).
  - unfold move. rewrite Hq, Hrecv. reflexivity.
  - apply Hwait. unfold gone. now rewrite Hq.
  - eapply active_moves with (q' := q2) (to_q' := []) (out := [MessageContainer_serialize c]).
    + unfold move. rewrite Hq1, Hsend. reflexivity.
    + apply Hwait. unfold gone. now rewrite Hq1.
    + exact Hrun.
Qed.

Ltac fields :=
  cbn [at_phase keep_sending keep_receiving messages_to_send uuid4 handed sent
       received fst snd] in *.

Ltac known :=
  repeat match goal with
  | H : keep_sending ?e = _ |- context [keep_sending ?e] => rewrite H
  | H : keep_receiving ?e = _ |- context [keep_receiving ?e] => rewrite H
  | H : messages_to_send ?e = _ |- context [messages_to_send ?e] => rewrite H
  | H : at_phase ?e = _ |- context [at_phase ?e] => rewrite H
  end;
  cbn [orb negb length app forallb map] in *.

Ltac bound :=
  repeat match goal with
  | H : keep_sending ?e = _, B : (?l <= _)%nat |- _ =>
      match l with context [keep_sending e] => rewrite H in B end
  | H : keep_receiving ?e = _, B : (?l <= _)%nat |- _ =>
      match l with context [keep_receiving e] => rewrite H in B end
  | H : messages_to_send ?e = _, B : (?l <= _)%nat |- _ =>
      match l with context [messages_to_send e] => rewrite H in B end
  end.

Ltac settle :=
  known; bound; cbn [length] in *;
  repeat match goal with
  | H : ?a = ?a -> _ |- _ => specialize (H eq_refl)
  | H : (_ && _) = true |- _ => apply andb_true_iff in H; destruct H
  | H : logged _ |- _ => destruct H
  end;
  repeat split; intros;
  try discriminate; try reflexivity; try assumption;
  try (apply count_app_no_more_data);
  try (eapply Nat.le_trans; [| apply count_app_mono]; auto; fail);
  try (eexists; split; [reflexivity | assumption]; fail);
  try (eexists; reflexivity);
  try lia; auto.

Lemma turn (n : nat) :
  forall (side : bool) (p q : endpoint) (x : list DepecheMessage),
    in_turn p q x -> (turns_left p q <= n)%nat ->
    exists pf qf to_q to_p,
      runs_to (place side p q [MessageContainer_serialize x] [])
              (place side pf qf to_q to_p)
      /\ done pf /\ done qf
      /\ handed pf = handed p ++ map user_message (messages_to_send q)
      /\ handed qf
         = handed q ++ user_messages x ++ map user_message (messages_to_send p)
      /\ logged pf /\ logged qf.
Proof.
  induction n as [|n IH];
    intros side p q x
      (Hphp & Hphq & Hx & Hkr & HkrQ & HrestP & HrestQ & HfP & HfQ & HlP & HlQ)
      Hn.
  - exfalso. unfold turns_left, pending in Hn. destruct (keep_sending q); lia.
  - assert (Hp : at_phase p = receiving \/ at_phase p = finished)
      by (rewrite Hphp; destruct (_ || _); auto).
    assert (Hpass : forall q2 c,
      send_phase (receive_phase q (MessageContainer_serialize x)) = (q2, c) ->
      at_phase (receive_phase q (MessageContainer_serialize x)) = sending ->
      in_turn q2 p c -> (turns_left q2 p <= n)%nat ->
      handed q2 = handed q ++ user_messages x ->
      user_messages c ++ map user_message (messages_to_send q2)
      = map user_message (messages_to_send q) ->
      exists pf qf to_q to_p,
        runs_to (place side p q [MessageContainer_serialize x] [])
                (place side pf qf to_q to_p)
        /\ done pf /\ done qf
        /\ handed pf = handed p ++ map user_message (messages_to_send q)
        /\ handed qf
           = handed q ++ user_messages x
             ++ map user_message (messages_to_send p)
        /\ logged pf /\ logged qf).
    { intros q2 c Hs Hph Ht Hm Hh Hu.
      destruct (IH (negb side) q2 p c Ht Hm)
        as (pf' & qf' & a & b & Hrun & Hdp & Hdq & Hhp & Hhq & Hlp & Hlq).
      rewrite !place_swap in Hrun.
      exists qf', pf', b, a. split.
      { eapply answer; [exact Hphq | exact Hp | reflexivity | exact Hph
                       | exact Hs | exact Hrun]. }
      split; [exact Hdq |]. split; [exact Hdp |].
      split; [now rewrite Hhq, Hu |].
      split; [now rewrite Hhp, Hh, <- app_assoc |].
      split; assumption. }
    destruct (send_phase (receive_phase q (MessageContainer_serialize x)))
      as [q2 c] eqn:Hsend.
    pose proof Hsend as Hsend0.
    unfold last_sent in Hx. unfold turns_left, pending in Hn.
    destruct (keep_sending p) eqn:HksP.
    + destruct Hx as (m & -> & Hm).
      assert (HkrQ' : keep_receiving q = true)
        by (destruct (keep_receiving q); [reflexivity | now specialize (HkrQ eq_refl)]).
      rewrite receive_phase_user in Hsend by exact Hm.
      unfold send_phase, _send_messages in Hsend. fields.
      destruct (keep_sending q) eqn:HksQ;
        [destruct (messages_to_send q) as [|n' restQ] eqn:HrQ |];
        cbn [negb orb] in Hsend; rewrite ?HkrQ' in Hsend;
        injection Hsend as Hq2 Hc; symmetry in Hq2, Hc;
        (apply (Hpass q2 c eq_refl);
         [ rewrite receive_phase_user by exact Hm; reflexivity
         | subst q2 c; unfold in_turn, last_sent, logged; fields; settle
         | subst q2 c; unfold turns_left, pending; fields; settle
         | subst q2 c; fields; reflexivity
         | subst q2 c; fields; reflexivity ]).
    + destruct Hx as (ref & ->).
      specialize (HrestP eq_refl).
      rewrite receive_phase_no_more_data in Hsend.
      unfold send_phase, _send_messages in Hsend. fields.
      destruct (keep_sending q) eqn:HksQ;
        [destruct (messages_to_send q) as [|n' restQ] eqn:HrQ |];
        cbn [negb orb] in Hsend;
        injection Hsend as Hq2 Hc; symmetry in Hq2, Hc.
      * apply (Hpass q2 c eq_refl);
         [ reflexivity
         | subst q2 c; unfold in_turn, last_sent, logged; fields; settle
         | subst q2 c; unfold turns_left, pending; fields; settle
         | subst q2 c; fields; cbn; now rewrite app_nil_r
         | subst q2 c; fields; reflexivity ].
      * apply (Hpass q2 c eq_refl);
         [ reflexivity
         | subst q2 c; unfold in_turn, last_sent, logged; fields; settle
         | subst q2 c; unfold turns_left, pending; fields; settle
         | subst q2 c; fields; cbn; now rewrite app_nil_r
         | subst q2 c; fields; reflexivity ].
      * specialize (HrestQ eq_refl).
        assert (Hfin : at_phase p = finished) by (rewrite Hphp, Hkr; reflexivity).
        exists p, q2, [], [MessageContainer_serialize c]. split.
        { eapply answer; [exact Hphq | exact Hp | reflexivity | reflexivity
                         | exact Hsend0 |].
          apply at_rest; unfold move; [now rewrite Hfin | now subst q2]. }
        subst q2 c. unfold done, logged. fields. settle.
        { now rewrite app_nil_r. }
        { cbn. now rewrite app_nil_r. }
Qed.

(** X12: for any two lists of user messages that carry a fraction, whatever
    the interleaving of the two loops, the exchange comes to rest with
    both loops left and all four flags down; each side's callback has
    been called with the other side's messages, in order and once each;
    each side has written and read a [no_more_data]. *)
Theorem exchange_completes (messages_A messages_B : list UserMessage)
    (uuids_A uuids_B : nat -> string) :
  forallb carries_fraction messages_A = true ->
  forallb carries_fraction messages_B = true ->
  exists z,
    runs_to (connect messages_A messages_B uuids_A uuids_B) z
    /\ done (connector z) /\ done (acceptor z)
    /\ handed (connector z) = map user_message messages_B
    /\ handed (acceptor z) = map user_message messages_A
    /\ (1 <= no_more_data_count (sent (connector z)))%nat
    /\ (1 <= no_more_data_count (received (connector z)))%nat
    /\ (1 <= no_more_data_count (sent (acceptor z)))%nat
    /\ (1 <= no_more_data_count (received (acceptor z)))%nat.
Proof.
  intros HA HB.
  set (b := _message_exchange_loop messages_B false uuids_B).
  destruct (send_phase (_message_exchange_loop messages_A true uuids_A))
    as [a1 x] eqn:Hsend.
  pose proof Hsend as Hsend0.
  assert (Hturn : in_turn a1 b x
                  /\ handed a1 = []
                  /\ user_messages x ++ map user_message (messages_to_send a1)
                     = map user_message messages_A).
  { unfold send_phase, _send_messages, _message_exchange_loop in Hsend.
    subst b. unfold _message_exchange_loop. fields.
    destruct messages_A as [|m rest]; cbn [negb orb] in Hsend;
      injection Hsend as <- <-;
      unfold in_turn, last_sent, logged; fields; settle. }
  destruct Hturn as (Hturn & Hh & Hu).
  destruct (turn (turns_left a1 b) true a1 b x Hturn (Nat.le_refl _))
    as (pf & qf & to_q & to_p & Hrun & Hdp & Hdq & Hhp & Hhq & Hlp & Hlq).
  exists (place true pf qf to_q to_p). split.
  - change (connect messages_A messages_B uuids_A uuids_B)
      with (place false b (_message_exchange_loop messages_A true uuids_A) [] []).
    eapply active_moves
      with (q' := a1) (to_q' := []) (out := [MessageContainer_serialize x]).
    + unfold move. cbn [at_phase _message_exchange_loop].
      fold (_message_exchange_loop messages_A true uuids_A).
      rewrite Hsend0. reflexivity.
    + reflexivity.
    + rewrite <- place_swap. exact Hrun.
  - cbn [place connector acceptor].
    split; [exact Hdp |]. split; [exact Hdq |].
    split; [rewrite Hhp, Hh; reflexivity |].
    split; [rewrite Hhq; subst b; cbn [handed _message_exchange_loop app]; exact Hu |].
    destruct Hdp as (_ & Hps & Hpr), Hdq as (_ & Hqs & Hqr).
    destruct Hlp as [Hlps Hlpr], Hlq as [Hlqs Hlqr]. auto.
Qed.

Lemma exchange_completes_witness :
  forallb carries_fraction [message_with_fraction] = true
  /\ forallb carries_fraction [message_with_fraction; message_with_fraction]
     = true
  /\ exists z,
       runs_to (connect [message_with_fraction]
                  [message_with_fraction; message_with_fraction] uuids uuids) z
       /\ done (connector z) /\ done (acceptor z)
       /\ handed (connector z)
          = map user_message [message_with_fraction; message_with_fraction]
       /\ handed (acceptor z) = map user_message [message_with_fraction]
       /\ (1 <= no_more_data_count (sent (connector z)))%nat
       /\ (1 <= no_more_data_count (received (connector z)))%nat
       /\ (1 <= no_more_data_count (sent (acceptor z)))%nat
       /\ (1 <= no_more_data_count (received (acceptor z)))%nat.
Proof.
  assert (H1 : forallb carries_fraction [message_with_fraction] = true)
    by reflexivity.
  assert (H2 : forallb carries_fraction
                 [message_with_fraction; message_with_fraction] = true)
    by reflexivity.
  split; [exact H1 |]. split; [exact H2 |].
  exact (exchange_completes [message_with_fraction]
           [message_with_fraction; message_with_fraction] uuids uuids H1 H2).
Defined.

(** C2, at a failing input: the connector has one user message, sent on
    a whole second, and the acceptor has none.  Whatever the interleaving,
    the acceptor's loop is left by the [ValueError] of the timestamp
    parser before the callback is called, and the connector's read then
    finds the connection closed and raises; neither loop ends with both
    flags down.  The claim has both loops terminate and the acceptor's
    callback called once. *)
Theorem whole_second_message_breaks_exchange :
  exists z,
    runs_to (connect [message_on_whole_second] [] uuids uuids) z
    /\ at_phase (acceptor z)
       = crashed (ValueError "time data does not match format")
    /\ handed (acceptor z) = []
    /\ at_phase (connector z)
       = crashed (RuntimeError "Protocol does not match data received")
    /\ keep_receiving (connector z) = true.
Proof.
  eexists. split.
  - eapply (active_moves false); [reflexivity | reflexivity |].
    rewrite <- place_swap.
    eapply (active_moves true); [reflexivity | reflexivity |].
    rewrite <- place_swap.
    eapply (active_moves false); [reflexivity | reflexivity |].
    apply at_rest; reflexivity.
  - repeat split; reflexivity.
Qed.








(** *** The rendezvous chaser *)
Lemma chaser_done (info : RendezvousInfo) (timeout : option Z)
    (init : string -> json -> result unit) (start : Z) (ticks : list tick)
    (called : list (string * json)) :
  _RendezvousAnnouncementListener_listen info timeout init start true ticks called
  = {| calls := called; final := stopped |}.
Proof. destruct ticks; reflexivity. Qed.

Lemma chaser_invariant (info : RendezvousInfo) (timeout : option Z)
    (init : string -> json -> result unit) (start : Z) (ticks : list tick) :
  forall called,
    let t := _RendezvousAnnouncementListener_listen info timeout init start
               false ticks called in
    calls t = called
    \/ (exists call, calls t = called ++ [call]) /\ final t = stopped.
Proof.
  induction ticks as [|k ticks IH]; intros called;
    cbn [_RendezvousAnnouncementListener_listen orb]; [now left |].
  destruct (stop_requested k); [now left |].
  destruct (_read_announcement_from_socket (arrival k) "rendezvous")
    as [[[ip port] callsign]|e]; cbn [bind].
  - destruct (py.eq_str callsign (alias info)); [apply IH |].
    destruct (init ip port) as [[]|e].
    + rewrite chaser_done. right. cbn. eauto.
    + destruct (handle timeout start (now k) e) as [[|]|].
      * rewrite chaser_done. now left.
      * apply IH.
      * now left.
  - destruct (handle timeout start (now k) e) as [[|]|].
    + rewrite chaser_done. now left.
    + apply IH.
    + now left.
Qed.

(** X16: whatever it hears and however [initiate_rendezvous] fares, the
    announcement chaser of a rendezvous completes at most one rendezvous,
    and once it has completed one its loop has stopped. *)
Theorem chaser_completes_at_most_one_rendezvous (self : TcpUdpAdapter)
    (info : RendezvousInfo) (timeout : Z)
    (initiate_rendezvous : string -> json -> result unit) (start : Z)
    (ticks : list tick) :
  let t := rendezvous_listener self info timeout initiate_rendezvous start ticks in
  (length (calls t) <= 1)%nat /\ (calls t <> [] -> final t = stopped).
Proof.
  unfold rendezvous_listener.
  destruct (chaser_invariant info (Some timeout) initiate_rendezvous start ticks [])
    as [H | [(call & H) Hf]]; cbn zeta in *; rewrite H; cbn [app length].
  - split; [lia | congruence].
  - split; [lia | intros _; exact Hf].
Qed.

(** *** What [_receive_messages] does with a container *)

Lemma stop_is_not_no_more_data (m : DepecheMessage) :
  is_stop_sending m = true -> is_no_more_data m = false.
Proof.
  unfold is_stop_sending, is_no_more_data.
  destruct (type m); cbn [py.eq_str]; try discriminate.
  intros H. apply String.eqb_eq in H. now subst.
Qed.

(** X13: [_receive_messages] hands to [on_message_received] exactly the
    messages of the container that are neither [stop_sending] nor
    [no_more_data], in order; [keep_sending] stays up only if it was up
    and the container holds no [stop_sending], [keep_receiving] only if it
    was up and the container holds no [no_more_data]. *)
Theorem receive_hands_over_user_messages_only
    (container : list DepecheMessage) :
  forall (keep_sending keep_receiving : bool) (handed : list DepecheMessage),
    dispatch container keep_sending keep_receiving handed
    = (keep_sending && negb (existsb is_stop_sending container),
       keep_receiving && negb (existsb is_no_more_data container),
       handed ++ user_messages container).
Proof.
  induction container as [|m container IH]; intros ks kr h;
    cbn [dispatch existsb user_messages filter].
  - now rewrite !andb_true_r, app_nil_r.
  - fold (user_messages container). fold (is_stop_sending m).
    fold (is_no_more_data m).
    destruct (is_stop_sending m) eqn:Hs.
    + rewrite (stop_is_not_no_more_data m Hs). cbn [orb negb]. rewrite IH.
      now rewrite andb_false_r.
    + destruct (is_no_more_data m) eqn:Hn; cbn [orb negb]; rewrite IH.
      * now rewrite andb_false_r.
      * now rewrite <- app_assoc.
Qed.

(** *** The two port searches *)
Lemma consecutive_ports_S (base : Z) (n : nat) :
  consecutive_ports base (S n) = base :: consecutive_ports (base + 1) n.
Proof.
  unfold consecutive_ports. cbn [seq map]. f_equal; [cbn; lia |].
  rewrite <- seq_shift, map_map. apply map_ext. intros i. lia.
Qed.

Lemma create_socket_server_finds (can_bind : Z -> bool) (base max k : Z) (n : nat) :
  forall (tries : Z) (tried : list Z) (fuel : nat),
    n = Z.to_nat (k - tries) -> 0 <= tries <= k -> k < max ->
    (n < fuel)%nat ->
    can_bind (base + k) = true ->
    (forall i, tries <= i < k -> can_bind (base + i) = false) ->
    _create_socket_server fuel can_bind base max tries tried
    = Some (RUNNING (base + k),
            tried ++ consecutive_ports (base + tries) (S n)).
Proof.
  induction n as [|n IH]; intros tries tried fuel Hn Hk Hmax Hfuel Hfree Hbusy;
    (destruct fuel as [|fuel]; [lia |]); cbn [_create_socket_server];
    replace (tries <? max) with true by (symmetry; apply Z.ltb_lt; lia).
  - assert (tries = k) by lia. subst tries. rewrite Hfree.
    unfold consecutive_ports. cbn [seq map Z.of_nat]. now rewrite Z.add_0_r.
  - rewrite Hbusy by lia.
    replace (tries + 1 >=? max) with false
      by (symmetry; rewrite Z.geb_leb; apply Z.leb_gt; lia).
    rewrite (IH (tries + 1)) by (try lia; try assumption; intros; apply Hbusy; lia).
    rewrite <- app_assoc. cbn [app].
    rewrite (consecutive_ports_S (base + tries)).
    now rewrite (Z.add_assoc base tries 1).
Qed.

Lemma create_socket_server_gives_up (can_bind : Z -> bool) (base max : Z) (n : nat) :
  forall (tries : Z) (tried : list Z) (fuel : nat),
    n = Z.to_nat (max - tries) -> 0 <= tries < max ->
    (n <= fuel)%nat ->
    (forall i, tries <= i < max -> can_bind (base + i) = false) ->
    _create_socket_server fuel can_bind base max tries tried
    = Some (FAIL, tried ++ consecutive_ports (base + tries) n).
Proof.
  induction n as [|n IH]; intros tries tried fuel Hn Hk Hfuel Hbusy; [lia |].
  destruct fuel as [|fuel]; [lia |]. cbn [_create_socket_server].
  replace (tries <? max) with true by (symmetry; apply Z.ltb_lt; lia).
  rewrite Hbusy by lia. rewrite consecutive_ports_S.
  destruct (tries + 1 >=? max) eqn:Hlast.
  - rewrite Z.geb_leb in Hlast. apply Z.leb_le in Hlast.
    assert (n = 0%nat) by lia. subst n. reflexivity.
  - rewrite Z.geb_leb in Hlast. apply Z.leb_gt in Hlast.
    rewrite (IH (tries + 1)) by (try lia; intros; apply Hbusy; lia).
    rewrite <- app_assoc. cbn [app].
    now rewrite (Z.add_assoc base tries 1).
Qed.

(** X17: [_create_socket_server] tries [base_port], [base_port + 1], ...
    in turn.  With [k] the offset of the first port that can be bound
    ([k = max_port_offset] when none of the [max_port_offset] candidates
    can), it returns a server on [base_port + k] after [k + 1] attempts,
    or raises after [max_port_offset] attempts. *)
Theorem create_socket_server_probes_consecutive_ports (can_bind : Z -> bool)
    (base_port max_port_offset k : Z) (fuel : nat) :
  0 <= k <= max_port_offset -> 0 < max_port_offset ->
  (Z.to_nat max_port_offset <= fuel)%nat ->
  (forall i, 0 <= i < k -> can_bind (base_port + i) = false) ->
  (k < max_port_offset -> can_bind (base_port + k) = true) ->
  _create_socket_server fuel can_bind base_port max_port_offset 0 []
  = Some (if k <? max_port_offset then RUNNING (base_port + k) else FAIL,
          consecutive_ports base_port
            (Z.to_nat (Z.min (k + 1) max_port_offset))).
Proof.
  intros Hk Hmax Hfuel Hbusy Hfree.
  destruct (k <? max_port_offset) eqn:Hlt.
  - apply Z.ltb_lt in Hlt.
    rewrite (create_socket_server_finds can_bind base_port max_port_offset k
               (Z.to_nat k) 0 [] fuel)
      by (try lia; auto; f_equal; lia).
    cbn [app]. rewrite Z.add_0_r. do 3 f_equal. lia.
  - apply Z.ltb_ge in Hlt. assert (k = max_port_offset) by lia. subst k.
    rewrite (create_socket_server_gives_up can_bind base_port max_port_offset
               (Z.to_nat max_port_offset) 0 [] fuel)
      by (try lia; auto; f_equal; lia).
    cbn [app]. rewrite Z.add_0_r. do 3 f_equal. lia.
Qed.

Lemma create_socket_server_probes_consecutive_ports_witness :
  0 <= 2 <= 10 /\ 0 < 10 /\ (Z.to_nat 10 <= 10)%nat
  /\ (forall i, 0 <= i < 2 -> (fun p => p =? 27274) (27272 + i) = false)
  /\ (2 < 10 -> (fun p => p =? 27274) (27272 + 2) = true)
  /\ _create_socket_server 10 (fun p => p =? 27274) 27272 10 0 []
     = Some (if 2 <? 10 then RUNNING (27272 + 2) else FAIL,
             consecutive_ports 27272 (Z.to_nat (Z.min (2 + 1) 10))).
Proof.
  assert (H1 : 0 <= 2 <= 10) by lia.
  assert (H2 : 0 < 10) by lia.
  assert (H3 : (Z.to_nat 10 <= 10)%nat) by (cbn; lia).
  assert (H4 : forall i, 0 <= i < 2 -> (fun p => p =? 27274) (27272 + i) = false)
    by (intros i Hi; apply Z.eqb_neq; lia).
  assert (H5 : 2 < 10 -> (fun p => p =? 27274) (27272 + 2) = true)
    by (intros _; reflexivity).
  repeat (split; [assumption |]).
  exact (create_socket_server_probes_consecutive_ports
           (fun p => p =? 27274) 27272 10 2 10 H1 H2 H3 H4 H5).
Defined.

Lemma triangular_succ (i : Z) : triangular (i + 1) = triangular i + i + 1.
Proof.
  unfold triangular.
  replace ((i + 1) * (i + 1 + 1)) with (i * (i + 1) + (i + 1) * 2) by lia.
  rewrite Z.div_add by lia. lia.
Qed.

Lemma triangular_ports_S (base : Z) (n : nat) :
  triangular_ports base (S n)
  = triangular_ports base n ++ [base + triangular (Z.of_nat n)].
Proof.
  unfold triangular_ports. rewrite seq_S, map_app. reflexivity.
Qed.

(** The loop from its [tries]-th turn on, when the first free candidate is
    the [k]-th ([k = 10]: none is free). *)
Lemma rendezvous_port_loop_from (can_bind : Z -> bool) (base k : Z) (n : nat) :
  forall (tries port : Z) (fuel : nat),
    n = Z.to_nat (k - tries) -> 0 <= tries <= k -> k <= 10 ->
    (n + (if (k <? 10)%Z then 1 else 0) <= fuel)%nat ->
    port + tries = base + triangular tries ->
    (forall i, tries <= i < k -> can_bind (base + triangular i) = false) ->
    (k < 10 -> can_bind (base + triangular k) = true) ->
    rendezvous_port_loop fuel can_bind port tries
      (triangular_ports base (Z.to_nat tries))
    = Some (k <? 10,
            (if k <? 10 then base + triangular k
             else if tries <? 10 then base + triangular 9 else port),
            triangular_ports base (Z.to_nat (Z.min (k + 1) 10))).
Proof.
  induction n as [|n IH]; intros tries port fuel Hn Hk H10 Hfuel Hport Hbusy Hfree.
  - assert (tries = k) by lia. subst tries.
    destruct (k <? 10) eqn:Hlt.
    + destruct fuel as [|fuel]; [cbn in Hfuel; lia |].
      cbn [rendezvous_port_loop]. rewrite Hlt.
      apply Z.ltb_lt in Hlt. rewrite Hport, Hfree by lia.
      replace (Z.to_nat (Z.min (k + 1) 10)) with (S (Z.to_nat k)) by lia.
      rewrite triangular_ports_S. rewrite Z2Nat.id by lia. reflexivity.
    + destruct fuel as [|fuel]; cbn [rendezvous_port_loop]; rewrite Hlt;
        apply Z.ltb_ge in Hlt;
        replace (Z.to_nat (Z.min (k + 1) 10)) with (Z.to_nat k) by lia;
        reflexivity.
  - destruct fuel as [|fuel]; [lia |]. cbn [rendezvous_port_loop].
    replace (tries <? 10) with true by (symmetry; apply Z.ltb_lt; lia).
    rewrite Hport, Hbusy by lia.
    replace (triangular_ports base (Z.to_nat tries) ++ [base + triangular tries])
      with (triangular_ports base (Z.to_nat (tries + 1))).
    2:{ replace (Z.to_nat (tries + 1)) with (S (Z.to_nat tries)) by lia.
        rewrite triangular_ports_S, Z2Nat.id by lia. reflexivity. }
    rewrite (IH (tries + 1))
      by (try lia; try assumption; try (intros; apply Hbusy; lia);
          rewrite triangular_succ; lia).
    destruct (k <? 10) eqn:Hlt; [reflexivity |].
    apply Z.ltb_ge in Hlt. assert (k = 10) by lia. subst k.
    destruct (tries + 1 <? 10) eqn:Hnext; [reflexivity |].
    apply Z.ltb_ge in Hnext. assert (tries = 9) by lia. subst tries.
    reflexivity.
Qed.

(** X18: the candidates of [_RendezvousServer.run] are [base + i * (i +
    1) / 2] for [i = 0, ..., 9].  With [k] the index of the first of them
    that can be bound ([k = 10] when none can), the server reports
    [RUNNING] on that port after [k + 1] attempts, or [FAIL] after ten. *)
Theorem rendezvous_server_probes_triangular_ports (can_bind : Z -> bool)
    (base k : Z) :
  0 <= k <= 10 ->
  (forall i, 0 <= i < k -> can_bind (base + triangular i) = false) ->
  (k < 10 -> can_bind (base + triangular k) = true) ->
  _RendezvousServer_run base can_bind
  = Some (if k <? 10 then RUNNING (base + triangular k) else FAIL,
          triangular_ports base (Z.to_nat (Z.min (k + 1) 10))).
Proof.
  intros Hk Hbusy Hfree. unfold _RendezvousServer_run.
  change (@nil Z) with (triangular_ports base (Z.to_nat 0)).
  assert (Hfuel : (Z.to_nat k + (if (k <? 10)%Z then 1 else 0) <= 10)%nat).
  { destruct (k <? 10) eqn:Hlt;
      [apply Z.ltb_lt in Hlt | apply Z.ltb_ge in Hlt]; lia. }
  rewrite (rendezvous_port_loop_from can_bind base k (Z.to_nat k) 0 base 10)
    by (try lia; auto; try reflexivity; f_equal; lia).
  destruct (k <? 10); reflexivity.
Qed.

Lemma rendezvous_server_probes_triangular_ports_witness :
  0 <= 3 <= 10
  /\ (forall i, 0 <= i < 3 -> (fun p => p =? 27279) (27273 + triangular i) = false)
  /\ (3 < 10 -> (fun p => p =? 27279) (27273 + triangular 3) = true)
  /\ _RendezvousServer_run 27273 (fun p => p =? 27279)
     = Some (if 3 <? 10 then RUNNING (27273 + triangular 3) else FAIL,
             triangular_ports 27273 (Z.to_nat (Z.min (3 + 1) 10))).
Proof.
  assert (H1 : 0 <= 3 <= 10) by lia.
  assert (H2 : forall i, 0 <= i < 3 ->
                (fun p => p =? 27279) (27273 + triangular i) = false).
  { intros i Hi. assert (i = 0 \/ i = 1 \/ i = 2) as [-> | [-> | ->]] by lia;
      reflexivity. }
  assert (H3 : 3 < 10 -> (fun p => p =? 27279) (27273 + triangular 3) = true)
    by (intros _; reflexivity).
  repeat (split; [assumption |]).
  exact (rendezvous_server_probes_triangular_ports
           (fun p => p =? 27279) 27273 3 H1 H2 H3).
Defined.

End naive_facts.

(** ** The rendezvous data *)

Module rendezvous_info_facts.

Import structures naive rendezvous_info.

(** X10: deserializing what [RendezvousInfo.serialize] wrote gives an
    object with the same alias, the same address pad and the same public
    key. *)
Theorem RendezvousInfo_roundtrip (info : RendezvousInfo) :
  RendezvousInfo_deserialize (RendezvousInfo_serialize info)
  = Ok (as_object info).
Proof. destruct info; reflexivity. Qed.

Lemma is_None_false (v : json) : py.is_None v = false <-> v <> JNull.
Proof. destruct v; cbn; split; congruence. Qed.

(** X11: [RendezvousInfo.deserialize] accepts a JSON object exactly when
    its [type] is ["rendezvous_info"] and the fields [alias],
    [address_pad] and [public_key] are present and not [null]; the object
    it returns then holds the values of these three fields as they are. *)
Theorem RendezvousInfo_deserialize_accepts (d : list (string * json))
    (o : RendezvousInfo_object) :
  RendezvousInfo_deserialize (JObj d) = Ok o
  <-> py.dict_get "type" d = Some (JStr "rendezvous_info")
      /\ py.dict_get "alias" d = Some (_alias o)
      /\ py.dict_get "address_pad" d = Some (_address_pad o)
      /\ py.dict_get "public_key" d = Some (_public_key o)
      /\ _alias o <> JNull /\ _address_pad o <> JNull
      /\ _public_key o <> JNull.
Proof.
  unfold RendezvousInfo_deserialize. cbn [py.subscript]. split.
  - destruct (py.dict_get "type" d) as [t|]; cbn [bind]; [| discriminate].
    destruct (py.eq_str t "rendezvous_info") eqn:Ht; cbn [negb]; [| discriminate].
    destruct t; try discriminate. cbn in Ht. apply String.eqb_eq in Ht. subst.
    destruct (py.dict_get "alias" d) as [a|]; cbn [bind]; [| discriminate].
    destruct (py.is_None a) eqn:Ha; [discriminate |].
    destruct (py.dict_get "address_pad" d) as [p|]; cbn [bind]; [| discriminate].
    destruct (py.is_None p) eqn:Hp; [discriminate |].
    destruct (py.dict_get "public_key" d) as [k|]; cbn [bind]; [| discriminate].
    destruct (py.is_None k) eqn:Hk; [discriminate |].
    intros [= <-]. cbn. apply is_None_false in Ha, Hp, Hk. tauto.
  - intros (Ht & Ha & Hp & Hk & Hna & Hnp & Hnk).
    rewrite Ht, Ha, Hp, Hk. cbn [bind py.eq_str].
    apply is_None_false in Hna, Hnp, Hnk. rewrite Hna, Hnp, Hnk.
    cbn. destruct o; reflexivity.
Qed.

End rendezvous_info_facts.

(** ** The address and key store *)

Module sqlite_storage_facts.
Import sqlite_storage samples.

Lemma filter_none {A} (f : A -> bool) (l : list A) :
  (forall x, In x l -> f x = false) -> filter f l = [].
Proof.
  induction l as [|x l IH]; intros H; [reflexivity |].
  cbn. rewrite (H x) by (left; reflexivity).
  apply IH. intros y Hy. apply H. right. exact Hy.
Qed.

(** A row of the join pairs a key with an own address that refers to it. *)
Lemma in_key_join_address (d : db) (k : nacl_key_row) (a : own_address_row) :
  In (k, a) (key_join_address d)
  <-> In k (nacl_key d) /\ In a (own_address d) /\ k_id k = oa_key_id a.
Proof.
  unfold key_join_address. rewrite in_flat_map. split.
  - intros (k' & Hk & Hrow). apply in_map_iff in Hrow.
    destruct Hrow as (a' & Heq & Ha). inversion Heq; subst k' a'.
    apply filter_In in Ha. destruct Ha as [Ha Hid].
    apply String.eqb_eq in Hid. auto.
  - intros (Hk & Ha & Hid). exists k. split; [exact Hk |].
    apply in_map. apply filter_In. split; [exact Ha |].
    now apply String.eqb_eq.
Qed.

(** What the lookup returns comes from the last matching row. *)
Lemma lookup_some (d : db) (address key_id : string) (p : option string) :
  get_own_address_nacl_key d address = (Some key_id, p) ->
  exists k a,
    In k (nacl_key d) /\ In a (own_address d) /\ k_id k = key_id
    /\ k_is_own k = true /\ oa_id a = address /\ oa_key_id a = key_id.
Proof.
  unfold get_own_address_nacl_key.
  set (rows := filter _ (key_join_address d)).
  assert (Hrows : forall row, In row rows ->
            In row (key_join_address d)
            /\ k_is_own (fst row) && String.eqb (oa_id (snd row)) address = true)
    by (intros row; apply filter_In).
  clearbody rows. destruct rows as [|row rows _] using rev_ind.
  - discriminate.
  - rewrite fold_left_app. cbn. intros H. inversion H; subst key_id p.
    destruct (Hrows row) as [Hin Hcond]; [apply in_or_app; right; left; reflexivity |].
    destruct row as [k a]. apply in_key_join_address in Hin.
    destruct Hin as (Hk & Ha & Hid). apply andb_true_iff in Hcond.
    destruct Hcond as [Hown Haddr]. apply String.eqb_eq in Haddr.
    exists k, a. cbn in *. repeat split; auto.
Qed.

Lemma lookup_none (d : db) (address : string) :
  (forall a, In a (own_address d) -> oa_id a <> address) ->
  get_own_address_nacl_key d address = (None, None).
Proof.
  intros H. unfold get_own_address_nacl_key. rewrite filter_none; [reflexivity |].
  intros [k a] Hin. apply in_key_join_address in Hin.
  destruct Hin as (_ & Ha & _). cbn.
  apply H in Ha. apply String.eqb_neq in Ha. rewrite Ha. apply andb_false_r.
Qed.

Lemma removed_address_is_gone (d : db) (address : string) (a : own_address_row) :
  In a (own_address (remove_own_address d address)) <->
  In a (own_address d) /\ oa_id a <> address.
Proof.
  cbn. rewrite filter_In, negb_true_iff, String.eqb_neq. reflexivity.
Qed.

Lemma has_own_key_iff (d : db) (key_id : string) :
  existsb (is_own_key key_id) (nacl_key d) = true <-> has_own_key d key_id.
Proof.
  rewrite existsb_exists. unfold has_own_key, is_own_key.
  split; intros (k & Hk & H); exists k.
  - apply andb_true_iff in H. destruct H as [Hid Hown].
    apply String.eqb_eq in Hid. auto.
  - destruct H as [Hid Hown]. split; [exact Hk |].
    apply andb_true_iff. split; [now apply String.eqb_eq | exact Hown].
Qed.

Lemma key_referenced_after_removal (d : db) (address key_id : string) :
  key_referenced (remove_own_address d address) key_id = true <->
  other_own_address d address key_id \/ contact_address_on d key_id.
Proof.
  unfold key_referenced. rewrite orb_true_iff, !existsb_exists.
  unfold other_own_address, contact_address_on. split.
  - intros [(a & Ha & Hid) | (a & Ha & Hid)]; apply String.eqb_eq in Hid.
    + apply removed_address_is_gone in Ha. left. exists a. tauto.
    + right. exists a. auto.
  - intros [(a & Ha & Hne & Hid) | (a & Ha & Hid)].
    + left. exists a. split; [apply removed_address_is_gone; auto |].
      now apply String.eqb_eq.
    + right. exists a. split; [exact Ha | now apply String.eqb_eq].
Qed.

(** C4, as amended: for a stored message delivered to an own address
    bound to an own key, the clean-out removes that address, so that the
    key lookup for it returns none afterwards; it removes the key record
    if and only if no other own address and no contact address of the
    store refers to that key; a second clean-out of the same message
    returns and leaves the store as it is. *)
Theorem clean_out_removes_address_and_unreferenced_key (d : db)
    (message_id : string) :
  cleans_out d message_id
    (fun d address key_id =>
       ~ other_own_address d address key_id /\ ~ contact_address_on d key_id).
Proof.
  intros msg key_id private_key Hmsg Hkey.
  set (address := m_header_address msg) in *.
  destruct (lookup_some d address key_id private_key Hkey)
    as (k & a & Hk & Ha & Hkid & Hown & Haid & Hakey).
  assert (Hhas : has_own_key d key_id) by (exists k; auto).
  set (d1 := remove_own_address d address).
  assert (Hgone : forall a', In a' (own_address d1) -> oa_id a' <> address)
    by (intros a' Ha'; apply removed_address_is_gone in Ha'; tauto).
  assert (Hclean : clean_out_received_message d message_id
                   = match remove_own_nacl_key d1 key_id with
                     | Ok d' => Ok d'
                     | Raise IntegrityError => Ok d1
                     | Raise e => Raise e
                     end).
  { unfold clean_out_received_message. rewrite Hmsg. fold address.
    rewrite Hkey. reflexivity. }
  assert (Hagain : forall d', message d' = message d ->
            (forall a', In a' (own_address d') -> oa_id a' <> address) ->
            clean_out_received_message d' message_id = Ok d').
  { intros d' Hm Hd'. unfold clean_out_received_message, read_message.
    rewrite Hm. fold (read_message d message_id). rewrite Hmsg. fold address.
    rewrite (lookup_none d' address Hd'). reflexivity. }
  unfold remove_own_nacl_key in Hclean.
  assert (Hex : existsb (is_own_key key_id) (nacl_key d1) = true)
    by (apply has_own_key_iff; exact Hhas).
  rewrite Hex in Hclean. cbn [andb] in Hclean.
  destruct (key_referenced d1 key_id) eqn:Href.
  - exists d1. split; [exact Hclean |]. split; [exact Hgone |].
    split; [apply lookup_none; exact Hgone |]. split.
    + apply key_referenced_after_removal in Href.
      split; [intros Hno; exfalso; apply Hno; exact Hhas | tauto].
    + apply Hagain; [reflexivity | exact Hgone].
  - eexists. split; [exact Hclean |]. split; [exact Hgone |].
    split; [apply lookup_none; exact Hgone |]. split.
    + split.
      * intros _. split; intros H;
          assert (Ht : key_referenced d1 key_id = true)
            by (apply key_referenced_after_removal; tauto);
          congruence.
      * intros _ (k' & Hk' & Hid' & Hown'). cbn in Hk'.
        apply filter_In in Hk'. destruct Hk' as [_ Hk'].
        unfold is_own_key in Hk'. rewrite Hid', Hown', String.eqb_refl in Hk'.
        discriminate.
    + apply Hagain; [reflexivity | exact Hgone].
Qed.

Lemma clean_out_removes_address_and_unreferenced_key_witness :
  exists d',
    clean_out_received_message two_address_db "m1" = Ok d'
    /\ (forall a, In a (own_address d') -> oa_id a <> "a1"%string)
    /\ get_own_address_nacl_key d' "a1" = (None, None)
    /\ (~ has_own_key d' "k" <->
        ~ other_own_address two_address_db "a1" "k"
        /\ ~ contact_address_on two_address_db "k")
    /\ clean_out_received_message d' "m1" = Ok d'.
Proof.
  exact (clean_out_removes_address_and_unreferenced_key two_address_db
           "m1"%string (stored "m1" "a1") "k"%string (Some "priv"%string)
           eq_refl eq_refl).
Defined.

(** C4 as stated fails on a store in which the own key also backs a
    contact address: no other own address refers to the key, and the key
    record stays. *)
Lemma shared_key_is_not_removed :
  ~ cleans_out shared_key_db "m1"
      (fun d address key_id => ~ other_own_address d address key_id).
Proof.
  intros H.
  destruct (H (stored "m1" "a1") "k"%string (Some "priv"%string) eq_refl eq_refl)
    as (d' & Hclean & _ & _ & [_ Hiff] & _).
  cbv in Hclean. inversion Hclean; subst d'; clear Hclean.
  apply Hiff.
  - intros (a & Ha & Hne & _). cbn in Ha. destruct Ha as [<- | []].
    apply Hne. reflexivity.
  - exists (own_key "k"). cbn. auto.
Qed.

(** C9, at a failing input: in a store with three own keys of which only
    the second backs no address, the query returns the first key when
    SQLite takes the bare columns from the first row of the join and the
    third key when it takes them from the last row; both keys back one
    address, the key that backs none is not returned.  The claim has the
    returned key be one of minimal use. *)
Theorem least_used_key_is_not_selected :
  get_least_used_own_nacl_key (fun _ => 0%nat) three_key_db
  = (Some "k1"%string, Some "pub"%string)
  /\ get_least_used_own_nacl_key (fun n => pred n) three_key_db
     = (Some "k3"%string, Some "pub"%string)
  /\ usage three_key_db "k1" = 1%nat
  /\ usage three_key_db "k3" = 1%nat
  /\ usage three_key_db "k2" = 0%nat.
Proof. repeat split; reflexivity. Qed.

(** *** The other operations of the store *)
Lemma find_app_none {A} (f : A -> bool) (l : list A) (x : A) :
  find f l = None -> f x = true -> find f (l ++ [x]) = Some x.
Proof.
  induction l as [|y l IH]; cbn; intros Hl Hx; [now rewrite Hx |].
  destruct (f y); [discriminate | now apply IH].
Qed.

Lemma find_none_existsb {A} (f : A -> bool) (l : list A) :
  find f l = None <-> existsb f l = false.
Proof.
  induction l as [|y l IH]; cbn; [tauto |].
  destruct (f y); cbn; [split; discriminate | exact IH].
Qed.

(** X19: [store_message] returns the SHA-256 of the contents as the id.
    A message whose id the store does not hold is stored with a forward
    count of 0 and can be read back under that id; a message whose id the
    store holds leaves the store as it is, whatever its address and
    timestamp; hence storing the same contents again changes nothing and
    returns the same id. *)
Theorem store_message_is_idempotent (sha256 : string -> string)
    (now to_address send_time contents : string) (d : db) :
  let '(message_id, d1) :=
    store_message sha256 now d to_address send_time contents in
  message_id = sha256 contents
  /\ (read_message d message_id = None ->
      read_message d1 message_id
      = Some {| m_id := message_id; m_meta_received_at := now;
                m_meta_last_seen_at := now; m_meta_forward_count := 0;
                m_header_address := to_address;
                m_header_sent_at := send_time;
                m_body_contents := contents |})
  /\ (forall row, read_message d message_id = Some row ->
                  d1 = d)
  /\ (forall now' to_address' send_time',
        store_message sha256 now' d1 to_address' send_time' contents
        = (message_id, d1)).
Proof.
  unfold store_message.
  destruct (existsb (fun r => String.eqb (m_id r) (sha256 contents)) (message d))
    eqn:Hex.
  - split; [reflexivity |]. split.
    + unfold read_message. intros Hnone.
      apply find_none_existsb in Hnone. congruence.
    + split; [reflexivity |]. intros. now rewrite Hex.
  - split; [reflexivity |]. split.
    + intros _. unfold read_message. cbn [message set_message].
      apply find_app_none; [now apply find_none_existsb |].
      cbn. apply String.eqb_refl.
    + split.
      * unfold read_message. intros row Hrow.
        apply find_none_existsb in Hex. congruence.
      * intros. cbn [message set_message]. rewrite existsb_app. cbn [existsb m_id].
        rewrite String.eqb_refl, orb_true_r. reflexivity.
Qed.




(** Marking an address takes its rows, and only them, out of the join of
    [get_address_pad_nacl]. *)
Lemma unused_addresses_marked (d : db) (address contact_id : string) :
  unused_addresses (mark_contact_address d address) contact_id
  = filter (fun x => negb (String.eqb (ad_address_id x) address))
      (unused_addresses d contact_id).
Proof.
  unfold unused_addresses, mark_contact_address.
  cbn [foreign_address nacl_key set_foreign_address].
  induction (foreign_address d) as [|fa rows IH]; [reflexivity |].
  set (joined := fun fa : foreign_address_row =>
         map
           (fun k =>
              {| ad_address_id := fa_id fa; ad_key_id := fa_key_id fa;
                 ad_public_key := k_public_key k |})
           (filter (fun k => String.eqb (fa_key_id fa) (k_id k)) (nacl_key d)))
    in *.
  set (keep := fun x : Address => negb (String.eqb (ad_address_id x) address))
    in *.
  assert (Hjoined : filter keep (joined fa)
                    = if String.eqb (fa_id fa) address then [] else joined fa).
  { destruct (String.eqb (fa_id fa) address) eqn:Hid.
    - apply filter_none. intros x Hx. apply in_map_iff in Hx.
      destruct Hx as (k & <- & _). unfold keep. cbn. now rewrite Hid.
    - apply forallb_filter_id. apply forallb_forall. intros x Hx.
      apply in_map_iff in Hx. destruct Hx as (k & <- & _).
      unfold keep. cbn. now rewrite Hid. }
  cbn [map filter]. destruct (String.eqb (fa_id fa) address) eqn:Hid.
  - cbn [fa_is_used fa_contact_id negb]. rewrite andb_false_r, IH.
    destruct (String.eqb (fa_contact_id fa) contact_id && negb (fa_is_used fa));
      [| reflexivity].
    cbn [flat_map]. now rewrite filter_app, Hjoined.
  - destruct (String.eqb (fa_contact_id fa) contact_id && negb (fa_is_used fa));
      [| exact IH].
    cbn [flat_map]. now rewrite filter_app, Hjoined, IH.
Qed.

Lemma in_firstn {A} (n : nat) (l : list A) (x : A) :
  In x (firstn n l) -> In x l.
Proof.
  intros H. rewrite <- (firstn_skipn n l). apply in_or_app. now left.
Qed.

Lemma pad_in_unused (d : db) (contact_id : string) (size : option Z) (x : Address) :
  In x (get_address_pad_nacl d contact_id size) ->
  In x (unused_addresses d contact_id).
Proof.
  destruct size as [n|]; cbn [get_address_pad_nacl]; [| trivial].
  destruct (n <? 0); [trivial |]. apply in_firstn.
Qed.

(** X21: after [mark_contact_address(a)], [get_address_pad_nacl] does not
    return [a] for any contact and any size, and the full pad of every
    contact is what it was before without the entries for [a]. *)
Theorem used_contact_address_is_not_offered_again (d : db)
    (address contact_id : string) (size : option Z) :
  ~ In address
      (map ad_address_id
         (get_address_pad_nacl (mark_contact_address d address) contact_id size))
  /\ get_address_pad_nacl (mark_contact_address d address) contact_id None
     = filter (fun x => negb (String.eqb (ad_address_id x) address))
         (get_address_pad_nacl d contact_id None).
Proof.
  split; [| apply unused_addresses_marked].
  intros Hin. apply in_map_iff in Hin. destruct Hin as (x & Hid & Hx).
  apply pad_in_unused in Hx. rewrite unused_addresses_marked in Hx.
  apply filter_In in Hx. destruct Hx as [_ Hx]. rewrite Hid in Hx.
  rewrite String.eqb_refl in Hx. discriminate.
Qed.

Lemma has_key_in (d : db) (k : nacl_key_row) :
  In k (nacl_key d) -> has_key d (k_id k) = true.
Proof.
  intros Hk. apply existsb_exists. exists k. split; [exact Hk |].
  apply String.eqb_refl.
Qed.

(** X22: [store_contact_address] is a [REPLACE]: storing an address that
    the store holds marked as used, for an existing contact and key,
    succeeds and puts the address back on the contact's pad of unused
    addresses. *)
Theorem replace_revives_used_address (s : store) (contact_id address : string)
    (k : nacl_key_row) :
  has_contact s contact_id = true ->
  In k (nacl_key (tables s)) ->
  exists s',
    store_contact_address
      {| tables := mark_contact_address (tables s) address;
         contact := contact s |}
      contact_id address (k_id k)
    = Ok s'
    /\ In {| ad_address_id := address; ad_key_id := k_id k;
             ad_public_key := k_public_key k |}
         (get_address_pad_nacl (tables s') contact_id None).
Proof.
  intros Hc Hk. unfold store_contact_address.
  cbn [tables contact]. unfold has_contact at 1. cbn [contact].
  fold (has_contact s contact_id). rewrite Hc.
  replace (has_key (mark_contact_address (tables s) address) (k_id k))
    with true by (symmetry; apply (has_key_in (tables s) k Hk)).
  cbn [negb orb]. eexists. split; [reflexivity |].
  cbn [get_address_pad_nacl tables]. unfold unused_addresses.
  cbn [foreign_address nacl_key set_foreign_address mark_contact_address].
  apply in_flat_map.
  exists {| fa_id := address; fa_contact_id := contact_id;
            fa_key_id := k_id k; fa_is_used := false |}.
  split.
  - apply filter_In. split; [apply in_or_app; right; left; reflexivity |].
    cbn. now rewrite String.eqb_refl.
  - cbn [fa_id fa_key_id]. apply in_map_iff. exists k. split; [reflexivity |].
    apply filter_In. split; [exact Hk | apply String.eqb_refl].
Qed.

Lemma replace_revives_used_address_witness :
  has_contact contact_store_with_address "contact" = true
  /\ In (own_key "k") (nacl_key (tables contact_store_with_address))
  /\ exists s',
       store_contact_address
         {| tables := mark_contact_address (tables contact_store_with_address) "f1";
            contact := contact contact_store_with_address |}
         "contact" "f1" (k_id (own_key "k"))
       = Ok s'
       /\ In {| ad_address_id := "f1"; ad_key_id := k_id (own_key "k");
                ad_public_key := k_public_key (own_key "k") |}
            (get_address_pad_nacl (tables s') "contact" None).
Proof.
  assert (H1 : has_contact contact_store_with_address "contact" = true)
    by reflexivity.
  assert (H2 : In (own_key "k") (nacl_key (tables contact_store_with_address)))
    by (left; reflexivity).
  split; [exact H1 |]. split; [exact H2 |].
  exact (replace_revives_used_address contact_store_with_address "contact"
           "f1" (own_key "k") H1 H2).
Defined.

(** X23: once [store_contact_address] or [store_own_address] has stored
    an address for a contact, [remove_contact] of that contact raises
    [IntegrityError]: the address row refers to the contact. *)
Theorem contact_with_an_address_cannot_be_removed (s s' : store)
    (contact_id address key_id : string) :
  store_contact_address s contact_id address key_id = Ok s'
  \/ store_own_address s address contact_id key_id = Ok s' ->
  remove_contact s' contact_id = Raise IntegrityError.
Proof.
  intros [H | H].
  - unfold store_contact_address in H.
    destruct (has_contact s contact_id) eqn:Hc; [| discriminate].
    destruct (has_key (tables s) key_id); [| discriminate].
    cbn [negb orb] in H. injection H as <-.
    unfold remove_contact, has_contact, contact_referenced.
    cbn [contact tables foreign_address set_foreign_address].
    fold (has_contact s contact_id). rewrite Hc.
    rewrite existsb_app. cbn [existsb fa_contact_id].
    now rewrite String.eqb_refl, orb_true_r.
  - unfold store_own_address in H.
    destruct (existsb _ (own_address (tables s))); [discriminate |].
    destruct (has_contact s contact_id) eqn:Hc; [| discriminate].
    destruct (has_key (tables s) key_id); [| discriminate].
    cbn [negb orb] in H. injection H as <-.
    unfold remove_contact, has_contact, contact_referenced.
    cbn [contact tables own_address set_own_address].
    fold (has_contact s contact_id). rewrite Hc.
    rewrite (existsb_app _ (own_address (tables s))). cbn [existsb oa_given_to].
    now rewrite String.eqb_refl, !orb_true_r.
Qed.

Lemma contact_with_an_address_cannot_be_removed_witness :
  (store_contact_address contact_store "contact" "f1" "k"
   = Ok contact_store_with_address
   \/ store_own_address contact_store "f1" "contact" "k"
      = Ok contact_store_with_address)
  /\ remove_contact contact_store_with_address "contact" = Raise IntegrityError.
Proof.
  assert (H : store_contact_address contact_store "contact" "f1" "k"
              = Ok contact_store_with_address
              \/ store_own_address contact_store "f1" "contact" "k"
                 = Ok contact_store_with_address)
    by (left; reflexivity).
  split; [exact H |].
  exact (contact_with_an_address_cannot_be_removed contact_store
           contact_store_with_address "contact" "f1" "k" H).
Defined.

Lemma filter_all {A} (f : A -> bool) (l : list A) :
  (forall x, In x l -> f x = true) -> filter f l = l.
Proof.
  intros H. apply forallb_filter_id. now apply forallb_forall.
Qed.

(** X24: for an id that no contact holds and no address refers to,
    [store_contact] stores the contact under that id, [read_contact]
    returns its nickname and alias, [remove_contact] restores the store
    as it was before, and [read_contact] then finds nothing. *)
Theorem contact_write_read_delete (uuid4 now nickname alias : string)
    (s : store) :
  has_contact s uuid4 = false ->
  contact_referenced s uuid4 = false ->
  exists s1,
    store_contact uuid4 now s nickname alias = Ok (uuid4, s1)
    /\ read_contact s1 uuid4
       = Some {| c_id := uuid4; c_nickname := nickname; c_alias := alias;
                 c_created_at := now; c_modified_at := now |}
    /\ remove_contact s1 uuid4 = Ok s
    /\ read_contact s uuid4 = None.
Proof.
  intros Hfresh Href. unfold store_contact. rewrite Hfresh.
  eexists. split; [reflexivity |].
  assert (Hnone : read_contact s uuid4 = None)
    by (apply find_none_existsb; exact Hfresh).
  split; [| split; [| exact Hnone]].
  - unfold read_contact. cbn [contact].
    apply find_app_none; [exact Hnone | apply String.eqb_refl].
  - unfold remove_contact, contact_referenced. cbn [contact tables].
    fold (contact_referenced s uuid4). rewrite Href, andb_false_r.
    rewrite filter_app. cbn [filter c_id]. rewrite String.eqb_refl.
    cbn [negb]. rewrite app_nil_r, filter_all; [destruct s; reflexivity |].
    intros c Hc. apply negb_true_iff.
    unfold has_contact in Hfresh.
    destruct (String.eqb (c_id c) uuid4) eqn:E; [| reflexivity].
    assert (existsb (fun c => String.eqb (c_id c) uuid4) (contact s) = true)
      by (apply existsb_exists; eauto).
    congruence.
Qed.

Lemma contact_write_read_delete_witness :
  has_contact contact_store "6f1c" = false
  /\ contact_referenced contact_store "6f1c" = false
  /\ exists s1,
       store_contact "6f1c" "t" contact_store "nick2" "alpha2"
       = Ok ("6f1c"%string, s1)
       /\ read_contact s1 "6f1c"
          = Some {| c_id := "6f1c"; c_nickname := "nick2"; c_alias := "alpha2";
                    c_created_at := "t"; c_modified_at := "t" |}
       /\ remove_contact s1 "6f1c" = Ok contact_store
       /\ read_contact contact_store "6f1c" = None.
Proof.
  assert (H1 : has_contact contact_store "6f1c" = false) by reflexivity.
  assert (H2 : contact_referenced contact_store "6f1c" = false) by reflexivity.
  split; [exact H1 |]. split; [exact H2 |].
  exact (contact_write_read_delete "6f1c" "t" "nick2" "alpha2" contact_store
           H1 H2).
Defined.

Lemma unique_by_key {A B} (f : A -> B) (l : list A) (x y : A) :
  NoDup (map f l) -> In x l -> In y l -> f x = f y -> x = y.
Proof.
  induction l as [|z l IH]; cbn; intros Hnd Hx Hy Hf; [contradiction |].
  inversion Hnd as [|? ? Hnotin Hnd']; subst.
  destruct Hx as [-> | Hx], Hy as [-> | Hy]; auto.
  - exfalso. apply Hnotin. rewrite Hf. now apply in_map.
  - exfalso. apply Hnotin. rewrite <- Hf. now apply in_map.
Qed.

Lemma last_row_wins (k : nacl_key_row)
    (rows : list (nacl_key_row * own_address_row)) :
  rows <> [] -> (forall r, In r rows -> fst r = k) ->
  forall init,
    fold_left
      (fun (result : option string * option string)
           (row : nacl_key_row * own_address_row) =>
         (Some (k_id (fst row)), k_private_key (fst row)))
      rows init
    = (Some (k_id k), k_private_key k).
Proof.
  intros Hne Hall init. destruct rows as [|row rows _] using rev_ind;
    [congruence |].
  rewrite fold_left_app. cbn.
  rewrite (Hall row) by (apply in_or_app; right; left; reflexivity).
  reflexivity.
Qed.

(** X25: in a store whose key ids are unique, an address stored by
    [store_own_address] for an own key resolves, in
    [get_own_address_nacl_key], to that key's id and private key; it
    counts as an own unused address until [mark_own_address], and not
    afterwards. *)
Theorem stored_own_address_resolves_to_its_key (s s' : store)
    (address contact_id : string) (k : nacl_key_row) :
  key_ids_unique (tables s) ->
  In k (nacl_key (tables s)) ->
  k_is_own k = true ->
  store_own_address s address contact_id (k_id k) = Ok s' ->
  get_own_address_nacl_key (tables s') address
  = (Some (k_id k), k_private_key k)
  /\ is_own_unused_address (tables s') address = true
  /\ is_own_unused_address (mark_own_address (tables s') address) address
     = false.
Proof.
  intros Huniq Hk Hown Hstore. unfold store_own_address in Hstore.
  destruct (existsb (fun a => String.eqb (oa_id a) address)
              (own_address (tables s))) eqn:Hpk; [discriminate |].
  destruct (has_contact s contact_id); [| discriminate].
  destruct (has_key (tables s) (k_id k)); [| discriminate].
  cbn [negb orb] in Hstore. injection Hstore as <-. cbn [tables].
  set (new := {| oa_id := address; oa_given_to := Some contact_id;
                 oa_key_id := k_id k; oa_is_used := false |}).
  assert (Hold : forall a, In a (own_address (tables s)) ->
                           String.eqb (oa_id a) address = false).
  { intros a Ha. destruct (String.eqb (oa_id a) address) eqn:E; [| reflexivity].
    assert (existsb (fun a => String.eqb (oa_id a) address)
              (own_address (tables s)) = true)
      by (apply existsb_exists; eauto).
    congruence. }
  split; [| split].
  - unfold get_own_address_nacl_key. apply last_row_wins.
    + intros Hnil.
      assert (Hin : In (k, new)
                (filter
                   (fun row => k_is_own (fst row)
                               && String.eqb (oa_id (snd row)) address)
                   (key_join_address
                      (set_own_address (tables s)
                         (own_address (tables s) ++ [new]))))).
      { apply filter_In. split.
        - apply in_key_join_address. cbn [nacl_key own_address set_own_address].
          split; [exact Hk |]. split; [| reflexivity].
          apply in_or_app. right. left. reflexivity.
        - cbn. now rewrite Hown, String.eqb_refl. }
      rewrite Hnil in Hin. contradiction.
    + intros [k' a'] Hin. apply filter_In in Hin. destruct Hin as [Hin Hcond].
      apply in_key_join_address in Hin.
      cbn [nacl_key own_address set_own_address] in Hin.
      destruct Hin as (Hk' & Ha' & Hid). cbn [fst snd] in *.
      apply andb_true_iff in Hcond. destruct Hcond as [_ Haddr].
      apply in_app_or in Ha'. destruct Ha' as [Ha' | [<- | []]].
      * rewrite (Hold a' Ha') in Haddr. discriminate.
      * cbn [oa_key_id new] in Hid.
        apply (unique_by_key k_id (nacl_key (tables s))); assumption.
  - unfold is_own_unused_address. cbn [own_address set_own_address].
    rewrite filter_app. cbn [filter oa_id oa_is_used new].
    rewrite String.eqb_refl. cbn [andb negb].
    rewrite length_app. cbn [length]. apply Z.gtb_lt. lia.
  - unfold is_own_unused_address, mark_own_address.
    cbn [own_address set_own_address].
    rewrite filter_none; [reflexivity |].
    intros a Ha. apply in_map_iff in Ha. destruct Ha as (a0 & <- & _).
    destruct (String.eqb (oa_id a0) address) eqn:E; cbn [oa_id oa_is_used].
    + now rewrite andb_false_r.
    + now rewrite E.
Qed.

Lemma stored_own_address_resolves_to_its_key_witness :
  key_ids_unique (tables contact_store)
  /\ In (own_key "k") (nacl_key (tables contact_store))
  /\ k_is_own (own_key "k") = true
  /\ store_own_address contact_store "a9" "contact" (k_id (own_key "k"))
     = Ok contact_store_with_own_address
  /\ get_own_address_nacl_key (tables contact_store_with_own_address) "a9"
     = (Some (k_id (own_key "k")), k_private_key (own_key "k"))
  /\ is_own_unused_address (tables contact_store_with_own_address) "a9" = true
  /\ is_own_unused_address
       (mark_own_address (tables contact_store_with_own_address) "a9") "a9"
     = false.
Proof.
  assert (H1 : key_ids_unique (tables contact_store)).
  { unfold key_ids_unique. cbn. constructor; [intros [] | constructor]. }
  assert (H2 : In (own_key "k") (nacl_key (tables contact_store)))
    by (left; reflexivity).
  assert (H3 : k_is_own (own_key "k") = true) by reflexivity.
  assert (H4 : store_own_address contact_store "a9" "contact"
                 (k_id (own_key "k"))
               = Ok contact_store_with_own_address) by reflexivity.
  split; [exact H1 |]. split; [exact H2 |]. split; [exact H3 |].
  split; [exact H4 |].
  exact (stored_own_address_resolves_to_its_key contact_store
           contact_store_with_own_address "a9" "contact" (own_key "k")
           H1 H2 H3 H4).
Defined.

Lemma left_join_rows (d : db) (k : nacl_key_row) (a : option own_address_row) :
  In (k, a) (own_key_left_join_address d) ->
  In k (nacl_key d) /\ k_is_own k = true.
Proof.
  unfold own_key_left_join_address. intros H. apply filter_In in H.
  destruct H as [H Hown]. split; [| exact Hown].
  apply in_flat_map in H. destruct H as (k' & Hk' & H).
  destruct (filter _ (own_address d)) as [|a0 rest].
  - destruct H as [H | []]. now inversion H; subst.
  - apply in_map_iff in H. destruct H as (a1 & H & _). now inversion H; subst.
Qed.

Lemma left_join_has_row (d : db) (k : nacl_key_row) :
  In k (nacl_key d) -> k_is_own k = true ->
  exists a, In (k, a) (own_key_left_join_address d).
Proof.
  intros Hk Hown. unfold own_key_left_join_address.
  destruct (filter (fun a => String.eqb (k_id k) (oa_key_id a)) (own_address d))
    as [|a0 rest] eqn:E.
  - exists None. apply filter_In. split; [| exact Hown].
    apply in_flat_map. exists k. split; [exact Hk |]. rewrite E. now left.
  - exists (Some a0). apply filter_In. split; [| exact Hown].
    apply in_flat_map. exists k. split; [exact Hk |]. rewrite E. now left.
Qed.

(** X26: whichever row of the join SQLite takes the bare columns from,
    [get_least_used_own_nacl_key] returns the id and the public key of an
    own key of the store; it returns [(None, None)] only when the store
    holds no own key. *)
Theorem least_used_key_is_an_own_key (arbitrary_row : nat -> nat) (d : db) :
  (forall k, In k (nacl_key d) -> k_is_own k = false)
  /\ get_least_used_own_nacl_key arbitrary_row d = (None, None)
  \/ exists k,
       In k (nacl_key d) /\ k_is_own k = true
       /\ get_least_used_own_nacl_key arbitrary_row d
          = (Some (k_id k), Some (k_public_key k)).
Proof.
  unfold get_least_used_own_nacl_key.
  destruct (nth_error (own_key_left_join_address d)
              (arbitrary_row (length (own_key_left_join_address d))))
    as [[k a]|] eqn:Hnth.
  - right. exists k. apply nth_error_In in Hnth. apply left_join_rows in Hnth.
    tauto.
  - destruct (own_key_left_join_address d) as [|[k a] rows] eqn:Hrows.
    + left. split; [| reflexivity]. intros k Hk.
      destruct (k_is_own k) eqn:Hown; [| reflexivity].
      destruct (left_join_has_row d k Hk Hown) as (a & Ha).
      rewrite Hrows in Ha. contradiction.
    + right. exists k.
      assert (Hin : In (k, a) (own_key_left_join_address d))
        by (rewrite Hrows; now left).
      apply left_join_rows in Hin. tauto.
Qed.

Lemma clean_out_shape (d d' : db) (message_id key_id : string)
    (msg : message_row) (p : option string) :
  read_message d message_id = Some msg ->
  get_own_address_nacl_key d (m_header_address msg) = (Some key_id, p) ->
  clean_out_received_message d message_id = Ok d' ->
  message d' = message d
  /\ own_address d'
     = own_address (remove_own_address d (m_header_address msg)).
Proof.
  intros Hmsg Hkey. unfold clean_out_received_message. rewrite Hmsg, Hkey.
  unfold remove_own_nacl_key.
  destruct (existsb _ _ && key_referenced _ _); intros H.
  - injection H as <-. split; reflexivity.
  - injection H as <-. split; reflexivity.
Qed.

(** X27: in a store whose message ids are unique, after
    [clean_out_received_message] of a message delivered to an own address
    bound to an own key, [get_my_message_hashes] no longer lists that
    message. *)
Theorem cleaned_out_message_is_no_longer_listed (d d' : db)
    (message_id key_id : string) (msg : message_row) (p : option string) :
  message_ids_unique d ->
  read_message d message_id = Some msg ->
  get_own_address_nacl_key d (m_header_address msg) = (Some key_id, p) ->
  clean_out_received_message d message_id = Ok d' ->
  ~ In message_id (get_my_message_hashes d').
Proof.
  intros Huniq Hmsg Hkey Hclean Hin.
  destruct (clean_out_shape d d' message_id key_id msg p Hmsg Hkey Hclean)
    as [Hm Ha].
  unfold get_my_message_hashes in Hin. rewrite Hm, Ha in Hin.
  apply in_flat_map in Hin. destruct Hin as (m & Hmin & Hin).
  apply in_map_iff in Hin. destruct Hin as (a & Hid & Hain).
  apply filter_In in Hain. destruct Hain as [Hain Hcond].
  apply andb_true_iff in Hcond. destruct Hcond as [Haddr _].
  apply String.eqb_eq in Haddr.
  apply removed_address_is_gone in Hain. destruct Hain as [_ Hne].
  unfold read_message in Hmsg. apply find_some in Hmsg.
  destruct Hmsg as [Hmsgin Hmsgid]. apply String.eqb_eq in Hmsgid.
  assert (m = msg)
    by (apply (unique_by_key m_id (message d)); try assumption; congruence).
  subst m. congruence.
Qed.

Lemma cleaned_out_message_is_no_longer_listed_witness :
  message_ids_unique two_address_db
  /\ read_message two_address_db "m1" = Some (stored "m1" "a1")
  /\ get_own_address_nacl_key two_address_db (m_header_address (stored "m1" "a1"))
     = (Some "k"%string, Some "priv"%string)
  /\ clean_out_received_message two_address_db "m1"
     = Ok (remove_own_address two_address_db "a1")
  /\ ~ In "m1"%string
         (get_my_message_hashes (remove_own_address two_address_db "a1")).
Proof.
  assert (H1 : message_ids_unique two_address_db).
  { unfold message_ids_unique. cbn. constructor; [intros [] | constructor]. }
  assert (H2 : read_message two_address_db "m1" = Some (stored "m1" "a1"))
    by reflexivity.
  assert (H3 : get_own_address_nacl_key two_address_db
                 (m_header_address (stored "m1" "a1"))
               = (Some "k"%string, Some "priv"%string)) by reflexivity.
  assert (H4 : clean_out_received_message two_address_db "m1"
               = Ok (remove_own_address two_address_db "a1")) by reflexivity.
  split; [exact H1 |]. split; [exact H2 |]. split; [exact H3 |].
  split; [exact H4 |].
  exact (cleaned_out_message_is_no_longer_listed two_address_db
           (remove_own_address two_address_db "a1") "m1" "k"
           (stored "m1" "a1") (Some "priv"%string) H1 H2 H3 H4).
Defined.



(** X30: for an id that no key holds and no address refers to,
    [store_own_nacl_key] stores an own key under that id, and
    [remove_own_nacl_key] of that id then restores the store as it was. *)
Theorem own_key_write_remove (uuid4 private_key public_key : string) (d : db) :
  has_key d uuid4 = false ->
  key_referenced d uuid4 = false ->
  exists d1,
    store_own_nacl_key uuid4 d private_key public_key = Ok (uuid4, d1)
    /\ has_own_key d1 uuid4
    /\ remove_own_nacl_key d1 uuid4 = Ok d.
Proof.
  intros Hfresh Href. unfold store_own_nacl_key. rewrite Hfresh.
  eexists. split; [reflexivity |]. split.
  - eexists. split; [cbn; apply in_or_app; right; left; reflexivity |].
    split; reflexivity.
  - unfold remove_own_nacl_key, key_referenced.
    cbn [nacl_key own_address foreign_address message set_nacl_key].
    fold (key_referenced d uuid4). rewrite Href, andb_false_r.
    rewrite filter_app. cbn [filter]. unfold is_own_key at 2. cbn [k_id k_is_own].
    rewrite String.eqb_refl. cbn [andb negb]. rewrite app_nil_r.
    rewrite filter_all; [destruct d; reflexivity |].
    intros k Hk. apply negb_true_iff. unfold is_own_key.
    destruct (String.eqb (k_id k) uuid4) eqn:E; [| reflexivity].
    unfold has_key in Hfresh.
    assert (existsb (fun k => String.eqb (k_id k) uuid4) (nacl_key d) = true)
      by (apply existsb_exists; eauto).
    congruence.
Qed.

Lemma own_key_write_remove_witness :
  has_key two_address_db "k2" = false
  /\ key_referenced two_address_db "k2" = false
  /\ exists d1,
       store_own_nacl_key "k2" two_address_db "priv2" "pub2" = Ok ("k2"%string, d1)
       /\ has_own_key d1 "k2"
       /\ remove_own_nacl_key d1 "k2" = Ok two_address_db.
Proof.
  assert (H1 : has_key two_address_db "k2" = false) by reflexivity.
  assert (H2 : key_referenced two_address_db "k2" = false) by reflexivity.
  split; [exact H1 |]. split; [exact H2 |].
  exact (own_key_write_remove "k2" "priv2" "pub2" two_address_db H1 H2).
Defined.

End sqlite_storage_facts.

(** ** Saving the outcome of a rendezvous *)

Module common_facts.

Import sqlite_storage common samples sqlite_storage_facts.

Lemma store_own_addresses_succeeds (contact_id key_id : string)
    (address_pad : list string) :
  forall s,
    has_contact s contact_id = true ->
    has_key (tables s) key_id = true ->
    fresh_own_addresses (tables s) address_pad ->
    store_own_addresses s address_pad contact_id key_id
    = (Ok tt,
       {| tables :=
            set_own_address (tables s)
              (own_address (tables s)
               ++ map (fun a => {| oa_id := a; oa_given_to := Some contact_id;
                                   oa_key_id := key_id; oa_is_used := false |})
                    address_pad);
          contact := contact s |}).
Proof.
  induction address_pad as [|adr rest IH]; intros s Hc Hk [Hnd Hfresh];
    cbn [store_own_addresses map].
  - rewrite app_nil_r. destruct s as [[] ?]; reflexivity.
  - unfold store_own_address. rewrite Hc, Hk.
    replace (existsb (fun a => String.eqb (oa_id a) adr) (own_address (tables s)))
      with false.
    2:{ symmetry. apply not_true_is_false. intros H.
        apply existsb_exists in H. destruct H as (row & Hrow & Hid).
        apply String.eqb_eq in Hid.
        apply (Hfresh adr row); [now left | exact Hrow | exact Hid]. }
    cbn [negb orb]. inversion Hnd as [|? ? Hnotin Hnd']; subst.
    rewrite IH; cbn [tables contact own_address nacl_key set_own_address].
    + rewrite <- app_assoc. reflexivity.
    + exact Hc.
    + exact Hk.
    + split; [exact Hnd' |]. intros a row Ha Hrow.
      apply in_app_or in Hrow. destruct Hrow as [Hrow | [<- | []]].
      * apply Hfresh; [now right | exact Hrow].
      * cbn. intros ->. contradiction.
Qed.

(** X28: [rendezvous_save_info] leaves its loop over the peer's address
    pad in the first turn.  Given fresh ids for the contact and its key,
    an existing own key and own addresses the store does not hold yet, a
    peer pad of one or more addresses is saved as follows: the function
    returns [True], the new contact's pad of unused addresses holds the
    first address of the peer's pad and no other, and all the own
    addresses of [own_info] are stored. *)
Theorem rendezvous_save_info_keeps_one_contact_address
    (uuid_contact uuid_key now key_id first : string) (others : list string)
    (s : store) (own_info foreign_info : naive.RendezvousInfo) :
  has_contact s uuid_contact = false ->
  contact_referenced s uuid_contact = false ->
  has_key (tables s) uuid_key = false ->
  has_key (tables s) key_id = true ->
  fresh_own_addresses (tables s) (naive.address_pad own_info) ->
  naive.address_pad foreign_info = first :: others ->
  exists s',
    rendezvous_save_info uuid_contact uuid_key now s key_id own_info
      foreign_info
    = (Ok (Some true), s')
    /\ get_address_pad_nacl (tables s') uuid_contact None
       = [{| ad_address_id := first; ad_key_id := uuid_key;
             ad_public_key := naive.public_key foreign_info |}]
    /\ map oa_id (own_address (tables s'))
       = map oa_id (own_address (tables s)) ++ naive.address_pad own_info.
Proof.
  intros Hfresh Href Hkey Hown Hpad Hforeign.
  unfold rendezvous_save_info, store_contact, store_contact_nacl_key.
  rewrite Hfresh. cbn [tables contact]. rewrite Hkey, Hforeign.
  unfold store_contact_address. cbn [tables contact].
  assert (Hc : forall d,
            has_contact
              {| tables := d;
                 contact :=
                   contact s
                   ++ [{| c_id := uuid_contact;
                          c_nickname := naive.alias foreign_info;
                          c_alias := naive.alias own_info;
                          c_created_at := now; c_modified_at := now |}] |}
              uuid_contact = true).
  { intros d. unfold has_contact. cbn [contact]. rewrite existsb_app.
    cbn [existsb c_id]. now rewrite String.eqb_refl, orb_true_r. }
  rewrite Hc.
  assert (Hk1 : forall rows,
            has_key
              (set_nacl_key (tables s)
                 (nacl_key (tables s) ++ rows)) key_id = true).
  { intros rows. unfold has_key in *. cbn [nacl_key set_nacl_key].
    rewrite existsb_app, Hown. reflexivity. }
  assert (Hk2 : forall row,
            k_id row = uuid_key ->
            has_key
              (set_nacl_key (tables s) (nacl_key (tables s) ++ [row]))
              uuid_key = true).
  { intros row Hrow. unfold has_key. cbn [nacl_key set_nacl_key].
    rewrite existsb_app. cbn [existsb]. rewrite Hrow.
    now rewrite String.eqb_refl, !orb_true_r. }
  rewrite Hk2 by reflexivity. cbn [negb orb].
  rewrite store_own_addresses_succeeds.
  - eexists. split; [reflexivity |]. cbn [tables]. split.
    + cbn [get_address_pad_nacl]. unfold unused_addresses.
      cbn [foreign_address nacl_key set_own_address set_foreign_address
           set_nacl_key].
      rewrite filter_app.
      rewrite (filter_none _ (filter _ (foreign_address (tables s)))).
      * cbn [filter app fa_contact_id fa_is_used]. rewrite String.eqb_refl.
        cbn [negb andb flat_map fa_key_id fa_id app].
        rewrite filter_app, filter_none.
        -- cbn [filter k_id]. rewrite String.eqb_refl. reflexivity.
        -- intros k Hk. unfold has_key in Hkey.
           destruct (String.eqb uuid_key (k_id k)) eqn:E; [| reflexivity].
           apply String.eqb_eq in E.
           assert (existsb (fun k => String.eqb (k_id k) uuid_key)
                     (nacl_key (tables s)) = true)
             by (apply existsb_exists; exists k; split;
                 [exact Hk | now apply String.eqb_eq]).
           congruence.
      * intros fa Hfa. apply filter_In in Hfa. destruct Hfa as [Hfa _].
        unfold contact_referenced in Href. apply orb_false_iff in Href.
        destruct Href as [Href _].
        destruct (String.eqb (fa_contact_id fa) uuid_contact) eqn:E;
          [| reflexivity].
        assert (existsb (fun a => String.eqb (fa_contact_id a) uuid_contact)
                  (foreign_address (tables s)) = true)
          by (apply existsb_exists; eauto).
        congruence.
    + cbn [own_address set_own_address set_foreign_address set_nacl_key].
      rewrite map_app, map_map. cbn [oa_id]. now rewrite map_id.
  - apply Hc.
  - cbn [tables]. unfold has_key.
    cbn [nacl_key set_foreign_address set_nacl_key].
    rewrite existsb_app. unfold has_key in Hown. now rewrite Hown.
  - cbn [tables]. exact Hpad.
Qed.

Lemma rendezvous_save_info_keeps_one_contact_address_witness :
  has_contact key_store "6f1c" = false
  /\ contact_referenced key_store "6f1c" = false
  /\ has_key (tables key_store) "7a2d" = false
  /\ has_key (tables key_store) "k" = true
  /\ fresh_own_addresses (tables key_store) (naive.address_pad info)
  /\ naive.address_pad foreign_info = "ADR-7"%string :: ["ADR-8"%string]
  /\ exists s',
       rendezvous_save_info "6f1c" "7a2d" "t" key_store "k" info foreign_info
       = (Ok (Some true), s')
       /\ get_address_pad_nacl (tables s') "6f1c" None
          = [{| ad_address_id := "ADR-7"; ad_key_id := "7a2d";
                ad_public_key := naive.public_key foreign_info |}]
       /\ map oa_id (own_address (tables s'))
          = map oa_id (own_address (tables key_store))
            ++ naive.address_pad info.
Proof.
  assert (H1 : has_contact key_store "6f1c" = false) by reflexivity.
  assert (H2 : contact_referenced key_store "6f1c" = false) by reflexivity.
  assert (H3 : has_key (tables key_store) "7a2d" = false) by reflexivity.
  assert (H4 : has_key (tables key_store) "k" = true) by reflexivity.
  assert (H5 : fresh_own_addresses (tables key_store) (naive.address_pad info)).
  { split; [cbn; constructor; [intros [] | constructor] |].
    intros a row _ []. }
  assert (H6 : naive.address_pad foreign_info
               = "ADR-7"%string :: ["ADR-8"%string]) by reflexivity.
  repeat (split; [assumption |]).
  exact (rendezvous_save_info_keeps_one_contact_address "6f1c" "7a2d" "t" "k"
           "ADR-7" ["ADR-8"%string] key_store info foreign_info
           H1 H2 H3 H4 H5 H6).
Defined.

End common_facts.
